(** * Tiered commission engine of [backend/models.py]

    A shallow embedding of [Employee.calculate_current_rate_based_on_fees]
    and [Employee.calculate_commission_based_on_fees], and the properties
    the specification states about them.

    Numbers.  The Python code computes on JSON numbers and [db.Float]
    columns, that is on binary64 floats.  The functions are embedded
    twice.  In the first embedding every number is an exact rational
    ([Q]); it is used for the properties that rest on comparisons, on the
    selection of a rate and on [min] alone, which rounding does not
    change.  In the second embedding, [Binary64], every number is a
    binary64 float with the operations of IEEE 754; it is used for the
    properties of the amounts the code adds, subtracts and multiplies.

    Dictionaries.  A commission structure is a JSON object.  The code reads
    ['base_rate'], ['tiers'] and ['cap'] with [dict.get] (absent keys have
    a default) and reads ['threshold'] and ['rate'] of a tier with
    [tier[...]], which raises [KeyError] on an absent key.  A key that may
    be absent is an [option] field; the calls return an [outcome]. *)

From Stdlib Require Import String QArith Qminmax Lqa Lia Bool Arith List.
From Stdlib Require Import Permutation Sorted.
From Stdlib Require Import PrimFloat SpecFloat FloatOps FloatAxioms.
Import ListNotations.

Local Open Scope string_scope.
Local Open Scope list_scope.
Local Open Scope Q_scope.

(** ** Outcomes of a call *)

Inductive exn : Type :=
| KeyError (key : string)
| ValueError.

(** [OutOfFuel] is not a Python outcome: it marks a run of the [while]
    loop that was cut by the bound on its iterations. *)
Inductive outcome (A : Type) : Type :=
| Return (a : A)
| Raise (e : exn)
| OutOfFuel.

Arguments Return {A} a.
Arguments Raise {A} e.
Arguments OutOfFuel {A}.

Definition bind {A B : Type} (m : outcome A) (k : A -> outcome B) : outcome B :=
  match m with
  | Return a => k a
  | Raise e => Raise e
  | OutOfFuel => OutOfFuel
  end.

Notation "x <- m ;; k" := (bind m (fun x => k))
  (at level 61, m at next level, right associativity).

Fixpoint mapM {A B : Type} (f : A -> outcome B) (l : list A) : outcome (list B) :=
  match l with
  | [] => Return []
  | a :: l' => b <- f a ;; bs <- mapM f l' ;; Return (b :: bs)
  end.

(** ** Python comparisons and [min] on numbers *)

Definition Qgeb (a b : Q) : bool := Qle_bool b a.
Definition Qgtb (a b : Q) : bool := negb (Qle_bool a b).

(** [min(a, b)] keeps [a] unless [b < a]. *)
Definition py_min (a b : Q) : Q := if Qgtb a b then b else a.

(** ** Data model *)

Module Tier.
Record t : Type := mk { threshold : option Q; rate : option Q }.
End Tier.

Module Structure.
Record t : Type := mk {
  base_rate : option Q;
  tiers : option (list Tier.t);
  cap : option Q
}.
End Structure.

Record Employee : Type := mkEmployee {
  cumulative_fees : Q;
  cumulative_commission : Q;
  commission_structure : Structure.t
}.

(** The ['description'] of a segment is a formatted string of the values
    below; the two shapes the code builds are kept apart. *)
Inductive description : Type :=
| AtRate (segment_fee effective_rate : Q)
| ReachesThreshold (segment_fee effective_rate next_threshold : Q).

Module Segment.
Record t : Type := mk {
  segment : nat;
  from_cumulative_fees : Q;
  to_cumulative_fees : Q;
  fee_amount : Q;
  rate : Q;
  commission : Q;
  descr : description
}.
End Segment.

Record CommissionResult : Type := mkResult {
  total_commission : Q;
  breakdown : list Segment.t;
  cumulative_fees_before : Q;
  cumulative_fees_after : Q;
  cumulative_commission_before : Q;
  cumulative_commission_after : Q;
  new_rate : Q
}.

(** ** Dictionary access *)

(** [d.get(key, default)] *)
Definition dict_get {A : Type} (field : option A) (default : A) : A :=
  match field with
  | Some v => v
  | None => default
  end.

(** [d[key]] *)
Definition getitem {A : Type} (key : string) (field : option A) : outcome A :=
  match field with
  | Some v => Return v
  | None => Raise (KeyError key)
  end.

Definition tier_threshold (tier : Tier.t) : outcome Q :=
  getitem "threshold" (Tier.threshold tier).

Definition tier_rate (tier : Tier.t) : outcome Q :=
  getitem "rate" (Tier.rate tier).

(** ** [sorted(tiers, key=lambda x: x['threshold'])]

    [sorted] first computes the key of every element, left to right, and
    then sorts stably on the keys.  The stable sort of a list is unique;
    it is computed here by insertion from the right, a new element going
    before the first element whose key is not smaller. *)

Fixpoint insert_by_key (k : Q) (tier : Tier.t) (l : list (Q * Tier.t))
  : list (Q * Tier.t) :=
  match l with
  | [] => [(k, tier)]
  | (k', tier') :: l' =>
      if Qle_bool k k' then (k, tier) :: l
      else (k', tier') :: insert_by_key k tier l'
  end.

Fixpoint sort_by_key (l : list (Q * Tier.t)) : list (Q * Tier.t) :=
  match l with
  | [] => []
  | (k, tier) :: l' => insert_by_key k tier (sort_by_key l')
  end.

Definition sorted_by_threshold (l : list Tier.t) : outcome (list Tier.t) :=
  keys <- mapM tier_threshold l ;;
  Return (map snd (sort_by_key (combine keys l))).

(** ** The scan that selects a rate (lines 47-49, 78-80 and 170-172)

    [for tier in tiers: if position >= tier['threshold']: rate = tier['rate']] *)

Fixpoint scan_rate (position : Q) (tiers : list Tier.t) (current_rate : Q)
  : outcome Q :=
  match tiers with
  | [] => Return current_rate
  | tier :: tiers' =>
      th <- tier_threshold tier ;;
      if Qgeb position th
      then r <- tier_rate tier ;; scan_rate position tiers' r
      else scan_rate position tiers' current_rate
  end.

(** [if cap is not None: rate = min(rate, cap)] *)
Definition apply_cap (cap : option Q) (r : Q) : Q :=
  match cap with
  | Some c => py_min r c
  | None => r
  end.

(** ** [calculate_current_rate_based_on_fees] *)

Definition calculate_current_rate_based_on_fees (self : Employee) : outcome Q :=
  let structure := commission_structure self in
  let cumulative_fees := cumulative_fees self in
  let current_rate := dict_get (Structure.base_rate structure) 0 in
  tiers <- sorted_by_threshold (dict_get (Structure.tiers structure) []) ;;
  current_rate <- scan_rate cumulative_fees tiers current_rate ;;
  Return (apply_cap (Structure.cap structure) current_rate).

(** ** The search for the next threshold (lines 89-97)

    The first tier, in sorted order, whose threshold is greater than the
    position gives [next_threshold] and [next_rate]; without one they stay
    [None] and [current_rate]. *)

Fixpoint find_next (position : Q) (tiers : list Tier.t) (current_rate : Q)
  : outcome (option Q * Q) :=
  match tiers with
  | [] => Return (None, current_rate)
  | tier :: tiers' =>
      th <- tier_threshold tier ;;
      if Qgtb th position
      then next_threshold <- tier_threshold tier ;;
           next_rate <- tier_rate tier ;;
           Return (Some next_threshold, next_rate)
      else find_next position tiers' current_rate
  end.

(** ** The [while remaining_fee > 0] loop (lines 87-166) *)

Module Loop.
Record state : Type := mk {
  remaining_fee : Q;
  total_commission : Q;
  breakdown : list Segment.t;
  current_fee_position : Q;
  current_rate : Q
}.
End Loop.

(** One iteration of the loop body. *)
Definition loop_body (tiers : list Tier.t) (cap : option Q) (st : Loop.state)
  : outcome Loop.state :=
  let remaining_fee := Loop.remaining_fee st in
  let total_commission := Loop.total_commission st in
  let breakdown := Loop.breakdown st in
  let current_fee_position := Loop.current_fee_position st in
  let current_rate := Loop.current_rate st in
  nxt <- find_next current_fee_position tiers current_rate ;;
  let (next_threshold, next_rate) := nxt in
  let effective_rate := apply_cap cap current_rate in
  let stay :=
    (* the remaining fee is consumed at the current rate *)
    let segment_fee := remaining_fee in
    let segment_commission := segment_fee * effective_rate in
    Return (Loop.mk
      0
      (total_commission + segment_commission)
      (breakdown ++ [Segment.mk (length breakdown + 1)
                       current_fee_position
                       (current_fee_position + segment_fee)
                       segment_fee effective_rate segment_commission
                       (AtRate segment_fee effective_rate)])
      (current_fee_position + segment_fee)
      current_rate) in
  match next_threshold with
  | Some next_threshold =>
      let fee_space := next_threshold - current_fee_position in
      if Qle_bool fee_space remaining_fee then
        let segment_fee := fee_space in
        let segment_commission := segment_fee * effective_rate in
        Return (Loop.mk
          (remaining_fee - segment_fee)
          (total_commission + segment_commission)
          (breakdown ++ [Segment.mk (length breakdown + 1)
                           current_fee_position
                           next_threshold
                           segment_fee effective_rate segment_commission
                           (ReachesThreshold segment_fee effective_rate
                                             next_threshold)])
          next_threshold
          (apply_cap cap next_rate))
      else stay
  | None => stay
  end.

(** The loop, cut after [fuel] iterations. *)
Fixpoint while_loop (fuel : nat) (tiers : list Tier.t) (cap : option Q)
  (st : Loop.state) : outcome Loop.state :=
  if Qgtb (Loop.remaining_fee st) 0 then
    match fuel with
    | O => OutOfFuel
    | S fuel' =>
        st' <- loop_body tiers cap st ;;
        while_loop fuel' tiers cap st'
    end
  else Return st.

(** ** [calculate_commission_based_on_fees]

    Every iteration but the last moves the position onto a threshold
    greater than it, so the loop runs at most once more than there are
    tiers ([calculate_commission_run] below): the bound given to
    [while_loop] is never reached, and a larger one gives the same result
    ([while_loop_more_fuel]). *)

Definition calculate_commission_based_on_fees (self : Employee) (fee_amount : Q)
  : outcome CommissionResult :=
  let structure := commission_structure self in
  let cumulative_fees_before := cumulative_fees self in
  let base_rate := dict_get (Structure.base_rate structure) 0 in
  tiers <- sorted_by_threshold (dict_get (Structure.tiers structure) []) ;;
  let cap := Structure.cap structure in
  let current_fee_position := cumulative_fees_before in
  current_rate <- scan_rate current_fee_position tiers base_rate ;;
  let current_rate := apply_cap cap current_rate in
  st <- while_loop (S (length tiers)) tiers cap
          (Loop.mk fee_amount 0 [] current_fee_position current_rate) ;;
  new_rate <- scan_rate (Loop.current_fee_position st) tiers base_rate ;;
  let new_rate := apply_cap cap new_rate in
  Return (mkResult
    (Loop.total_commission st)
    (Loop.breakdown st)
    cumulative_fees_before
    (Loop.current_fee_position st)
    (cumulative_commission self)
    (cumulative_commission self + Loop.total_commission st)
    new_rate).

(** ** Concrete structures of the specification *)

Definition tier (th r : Q) : Tier.t := Tier.mk (Some th) (Some r).

Definition structure_single : Structure.t :=
  Structure.mk (Some 0.10) (Some [tier 100000 0.15]) None.

Definition structure_capped : Structure.t :=
  Structure.mk (Some 0.20) (Some [tier 1000 0.30]) (Some 0.25).

Definition structure_duplicate : Structure.t :=
  Structure.mk (Some 0.10)
               (Some [tier 1000 0.20; tier 1000 0.30]) None.

(** ** Well-formed structures

    A tier is well formed when it has both of its keys; a structure is
    well formed when all of its tiers are. *)

Definition tier_okb (tier : Tier.t) : bool :=
  match Tier.threshold tier, Tier.rate tier with
  | Some _, Some _ => true
  | _, _ => false
  end.

Definition well_formed (structure : Structure.t) : bool :=
  forallb tier_okb (dict_get (Structure.tiers structure) []).

(** The threshold and the rate of a well-formed tier. *)
Definition threshold_of (tier : Tier.t) : Q := dict_get (Tier.threshold tier) 0.
Definition rate_of (tier : Tier.t) : Q := dict_get (Tier.rate tier) 0.

(** The tiers of a structure, in the order they are listed. *)
Definition tiers_of (structure : Structure.t) : list Tier.t :=
  dict_get (Structure.tiers structure) [].

(** The sorted tier list on well-formed input. *)
Definition sorted_view (l : list Tier.t) : list Tier.t :=
  map snd (sort_by_key (combine (map threshold_of l) l)).

(** Tiers whose threshold lies beyond a position: the loop's measure. *)
Definition count_above (position : Q) (tiers : list Tier.t) : nat :=
  List.length (filter (fun tier => Qgtb (threshold_of tier) position) tiers).

(** Orders the sort is stated with. *)
Definition key_le (a b : Q * Tier.t) : Prop := fst a <= fst b.
Definition threshold_le (a b : Tier.t) : Prop := threshold_of a <= threshold_of b.

(** The two states an iteration of the loop body can produce: the segment
    reaches [next_threshold] (lines 107-130), or the remaining fee is used
    up at the current rate (lines 132-148 and 150-166). *)
Definition reach_state (cap : option Q) (st : Loop.state)
  (next_threshold next_rate : Q) : Loop.state :=
  let effective_rate := apply_cap cap (Loop.current_rate st) in
  let segment_fee := next_threshold - Loop.current_fee_position st in
  Loop.mk
    (Loop.remaining_fee st - segment_fee)
    (Loop.total_commission st + segment_fee * effective_rate)
    (Loop.breakdown st ++
       [Segment.mk (List.length (Loop.breakdown st) + 1)
          (Loop.current_fee_position st) next_threshold
          segment_fee effective_rate (segment_fee * effective_rate)
          (ReachesThreshold segment_fee effective_rate next_threshold)])
    next_threshold
    (apply_cap cap next_rate).

Definition stay_state (cap : option Q) (st : Loop.state) : Loop.state :=
  let effective_rate := apply_cap cap (Loop.current_rate st) in
  let segment_fee := Loop.remaining_fee st in
  Loop.mk
    0
    (Loop.total_commission st + segment_fee * effective_rate)
    (Loop.breakdown st ++
       [Segment.mk (List.length (Loop.breakdown st) + 1)
          (Loop.current_fee_position st)
          (Loop.current_fee_position st + segment_fee)
          segment_fee effective_rate (segment_fee * effective_rate)
          (AtRate segment_fee effective_rate)])
    (Loop.current_fee_position st + segment_fee)
    (Loop.current_rate st).

(** The state the loop starts from (lines 64-66, 74 and 77-84). *)
Definition initial_state (fee_amount position current_rate : Q) : Loop.state :=
  Loop.mk fee_amount 0 [] position current_rate.

(** No two tiers of the list have the same threshold. *)
Fixpoint distinct_thresholds (l : list Tier.t) : Prop :=
  match l with
  | [] => True
  | tier :: l' =>
      Forall (fun tier' => ~ threshold_of tier == threshold_of tier') l'
      /\ distinct_thresholds l'
  end.

Definition threshold_lt (a b : Tier.t) : Prop := threshold_of a < threshold_of b.

(** A structure with two tiers, listed out of order. *)
Definition structure_two_tiers : Structure.t :=
  Structure.mk (Some 0.10) (Some [tier 2000 0.30; tier 1000 0.20]) (Some 0.25).

(** Every tier of the list has its ['threshold'] key. *)
Definition thresholds_present (l : list Tier.t) : bool :=
  forallb (fun tier => match Tier.threshold tier with
                       | Some _ => true
                       | None => false
                       end) l.

(** A structure whose second tier lacks its ['rate'] key. *)
Definition structure_rate_missing : Structure.t :=
  Structure.mk (Some 0.10)
               (Some [tier 1000 0.20; Tier.mk (Some 5000) None]) None.

(** * The callers in [backend/app.py]

    The request handlers read and write the database through the ORM.
    The database is modelled by the rows the handlers below touch, and of
    a row by the columns they read or write: names, dates of placements
    and primary keys of placements and earnings are left out.  Request
    fields are taken after their conversion with [float].  A time is an
    integer.  Numbers are the rationals of the first embedding: the
    properties stated of the callers compare, select and copy values, or
    equate values that the code obtains by the same operations. *)

Module Placement.
Record t : Type := mk {
  starting_salary : Q;
  fee_percentage : Q;
  commission_amount : Q;
  commission_rate_used : Q;
  commission_breakdown : list Segment.t;
  employee_id : nat
}.
End Placement.


Module Earning.
Record t : Type := mk {
  amount : Q;
  employee_id : nat;
  calculated_at : Z
}.
End Earning.

Record Database : Type := mkDatabase {
  db_employees : list (nat * Employee);
  db_placements : list Placement.t;
  db_earnings : list Earning.t
}.

(** [Employee.query.get(id)] *)
Fixpoint query_get (rows : list (nat * Employee)) (id : nat) : option Employee :=
  match rows with
  | [] => None
  | (id', employee) :: rows' =>
      if Nat.eqb id' id then Some employee else query_get rows' id
  end.

(** The row of an employee written back by [db.session.commit()]. *)
Definition store_employee (rows : list (nat * Employee)) (id : nat)
  (employee : Employee) : list (nat * Employee) :=
  map (fun row => if Nat.eqb (fst row) id then (id, employee) else row) rows.

(** The JSON body of the response of [create_placement] (lines 191-203). *)
Module Response.
Record t : Type := mk {
  placement : Placement.t;
  commission_result : CommissionResult;
  cumulative_fees_before : Q;
  cumulative_fees_after : Q;
  cumulative_commission_before : Q;
  cumulative_commission_after : Q;
  new_rate : Q
}.
End Response.

Inductive response (A : Type) : Type :=
| Created (body : A)
| NotFound.

Arguments Created {A} body.
Arguments NotFound {A}.

(** [create_placement] (app.py lines 143-203).  [now] is the time the
    database gives the new earning. *)
Definition create_placement (db : Database)
  (starting_salary fee_percentage : Q) (employee_id : nat) (now : Z)
  : outcome (response Response.t * Database) :=
  let fee_amount := starting_salary * (fee_percentage / 100) in
  match query_get (db_employees db) employee_id with
  | None => Return (NotFound, db)
  | Some employee =>
      commission_result <-
        calculate_commission_based_on_fees employee fee_amount ;;
      let placement :=
        Placement.mk starting_salary (fee_percentage / 100)
          (total_commission commission_result)
          (new_rate commission_result)
          (breakdown commission_result)
          employee_id in
      let earning :=
        Earning.mk (total_commission commission_result) employee_id now in
      let employee' :=
        mkEmployee
          (cumulative_fees employee + fee_amount)
          (cumulative_commission employee + total_commission commission_result)
          (commission_structure employee) in
      Return
        (Created
           (Response.mk placement commission_result
              (cumulative_fees_before commission_result)
              (cumulative_fees employee')
              (cumulative_commission_before commission_result)
              (cumulative_commission employee')
              (new_rate commission_result * 100)),
         mkDatabase
           (store_employee (db_employees db) employee_id employee')
           (db_placements db ++ [placement])
           (db_earnings db ++ [earning]))
  end.

(** [reset_ytd_totals] (app.py lines 206-223): the reported
    [reset_count] and the database after the commit. *)
Definition reset_ytd_totals (db : Database) : nat * Database :=
  let reset_count := O in
  let employees :=
    map (fun row =>
           (fst row, mkEmployee 0 0 (commission_structure (snd row))))
        (db_employees db) in
  (reset_count, mkDatabase employees (db_placements db) (db_earnings db)).






(** A database with two employees, the first with one placement. *)
Definition database_example : Database :=
  mkDatabase
    [(1%nat, mkEmployee 1000 100 structure_two_tiers);
     (2%nat, mkEmployee 0 0 structure_single)]
    [Placement.mk 10000 0.10 100 0.20 [] 1%nat]
    [Earning.mk 100 1%nat 5%Z].

(** Primary keys are unique and foreign keys refer to a stored employee. *)
Definition keys_ok (db : Database) : Prop :=
  NoDup (map fst (db_employees db))
  /\ Forall (fun p => In (Placement.employee_id p) (map fst (db_employees db)))
            (db_placements db)
  /\ Forall (fun e => In (Earning.employee_id e) (map fst (db_employees db)))
            (db_earnings db).

#[local] Set Warnings "-inexact-float".

(** * The engine on binary64

    The same two functions with every number a binary64 float, computed
    with the operations of IEEE 754 as Python computes them: the model
    for what the code does where rounding matters.  Integers of the JSON
    structure are taken as the floats they convert to; a threshold that is
    NaN, on which the order [sorted] produces depends on its algorithm, is
    outside the model. *)

Module Binary64.

(** [min(a, b)] keeps [a] unless [b < a]. *)
Definition py_min (a b : float) : float := if PrimFloat.ltb b a then b else a.

Module Tier.
Record t : Type := mk { threshold : option float; rate : option float }.
End Tier.

Module Structure.
Record t : Type := mk {
  base_rate : option float;
  tiers : option (list Tier.t);
  cap : option float
}.
End Structure.

Record Employee : Type := mkEmployee {
  cumulative_fees : float;
  cumulative_commission : float;
  commission_structure : Structure.t
}.

Inductive description : Type :=
| AtRate (segment_fee effective_rate : float)
| ReachesThreshold (segment_fee effective_rate next_threshold : float).

Module Segment.
Record t : Type := mk {
  segment : nat;
  from_cumulative_fees : float;
  to_cumulative_fees : float;
  fee_amount : float;
  rate : float;
  commission : float;
  descr : description
}.
End Segment.

Record CommissionResult : Type := mkResult {
  total_commission : float;
  breakdown : list Segment.t;
  cumulative_fees_before : float;
  cumulative_fees_after : float;
  cumulative_commission_before : float;
  cumulative_commission_after : float;
  new_rate : float
}.

Definition tier_threshold (tier : Tier.t) : outcome float :=
  getitem "threshold" (Tier.threshold tier).

Definition tier_rate (tier : Tier.t) : outcome float :=
  getitem "rate" (Tier.rate tier).

(** [sorted(tiers, key=lambda x: x['threshold'])]: a new element goes
    before the first element whose key is not smaller. *)
Fixpoint insert_by_key (k : float) (tier : Tier.t) (l : list (float * Tier.t))
  : list (float * Tier.t) :=
  match l with
  | [] => [(k, tier)]
  | (k', tier') :: l' =>
      if PrimFloat.ltb k' k then (k', tier') :: insert_by_key k tier l'
      else (k, tier) :: l
  end.

Fixpoint sort_by_key (l : list (float * Tier.t)) : list (float * Tier.t) :=
  match l with
  | [] => []
  | (k, tier) :: l' => insert_by_key k tier (sort_by_key l')
  end.

Definition sorted_by_threshold (l : list Tier.t) : outcome (list Tier.t) :=
  keys <- mapM tier_threshold l ;;
  Return (map snd (sort_by_key (combine keys l))).

(** [for tier in tiers: if position >= tier['threshold']: rate = tier['rate']] *)
Fixpoint scan_rate (position : float) (tiers : list Tier.t) (current_rate : float)
  : outcome float :=
  match tiers with
  | [] => Return current_rate
  | tier :: tiers' =>
      th <- tier_threshold tier ;;
      if PrimFloat.leb th position
      then r <- tier_rate tier ;; scan_rate position tiers' r
      else scan_rate position tiers' current_rate
  end.

Definition apply_cap (cap : option float) (r : float) : float :=
  match cap with
  | Some c => py_min r c
  | None => r
  end.

Definition calculate_current_rate_based_on_fees (self : Employee)
  : outcome float :=
  let structure := commission_structure self in
  let cumulative_fees := cumulative_fees self in
  let current_rate := dict_get (Structure.base_rate structure) 0%float in
  tiers <- sorted_by_threshold (dict_get (Structure.tiers structure) []) ;;
  current_rate <- scan_rate cumulative_fees tiers current_rate ;;
  Return (apply_cap (Structure.cap structure) current_rate).

Fixpoint find_next (position : float) (tiers : list Tier.t) (current_rate : float)
  : outcome (option float * float) :=
  match tiers with
  | [] => Return (None, current_rate)
  | tier :: tiers' =>
      th <- tier_threshold tier ;;
      if PrimFloat.ltb position th
      then next_threshold <- tier_threshold tier ;;
           next_rate <- tier_rate tier ;;
           Return (Some next_threshold, next_rate)
      else find_next position tiers' current_rate
  end.

Module Loop.
Record state : Type := mk {
  remaining_fee : float;
  total_commission : float;
  breakdown : list Segment.t;
  current_fee_position : float;
  current_rate : float
}.
End Loop.

(** The state after an iteration that reaches [next_threshold] (lines
    107-130) and after one that uses up the remaining fee (lines 132-148
    and 150-166). *)
Definition reach_state (cap : option float) (st : Loop.state)
  (next_threshold next_rate : float) : Loop.state :=
  let effective_rate := apply_cap cap (Loop.current_rate st) in
  let segment_fee :=
    PrimFloat.sub next_threshold (Loop.current_fee_position st) in
  let segment_commission := PrimFloat.mul segment_fee effective_rate in
  Loop.mk
    (PrimFloat.sub (Loop.remaining_fee st) segment_fee)
    (PrimFloat.add (Loop.total_commission st) segment_commission)
    (Loop.breakdown st ++
       [Segment.mk (List.length (Loop.breakdown st) + 1)
          (Loop.current_fee_position st) next_threshold
          segment_fee effective_rate segment_commission
          (ReachesThreshold segment_fee effective_rate next_threshold)])
    next_threshold
    (apply_cap cap next_rate).

Definition stay_state (cap : option float) (st : Loop.state) : Loop.state :=
  let effective_rate := apply_cap cap (Loop.current_rate st) in
  let segment_fee := Loop.remaining_fee st in
  let segment_commission := PrimFloat.mul segment_fee effective_rate in
  Loop.mk
    0%float
    (PrimFloat.add (Loop.total_commission st) segment_commission)
    (Loop.breakdown st ++
       [Segment.mk (List.length (Loop.breakdown st) + 1)
          (Loop.current_fee_position st)
          (PrimFloat.add (Loop.current_fee_position st) segment_fee)
          segment_fee effective_rate segment_commission
          (AtRate segment_fee effective_rate)])
    (PrimFloat.add (Loop.current_fee_position st) segment_fee)
    (Loop.current_rate st).

(** One iteration of the loop body (lines 88-166). *)
Definition loop_body (tiers : list Tier.t) (cap : option float) (st : Loop.state)
  : outcome Loop.state :=
  nxt <- find_next (Loop.current_fee_position st) tiers (Loop.current_rate st) ;;
  let (next_threshold, next_rate) := nxt in
  match next_threshold with
  | Some next_threshold =>
      let fee_space :=
        PrimFloat.sub next_threshold (Loop.current_fee_position st) in
      if PrimFloat.leb fee_space (Loop.remaining_fee st)
      then Return (reach_state cap st next_threshold next_rate)
      else Return (stay_state cap st)
  | None => Return (stay_state cap st)
  end.

(** [while remaining_fee > 0], cut after [fuel] iterations. *)
Fixpoint while_loop (fuel : nat) (tiers : list Tier.t) (cap : option float)
  (st : Loop.state) : outcome Loop.state :=
  if PrimFloat.ltb 0%float (Loop.remaining_fee st) then
    match fuel with
    | O => OutOfFuel
    | S fuel' =>
        st' <- loop_body tiers cap st ;;
        while_loop fuel' tiers cap st'
    end
  else Return st.

Definition calculate_commission_based_on_fees (self : Employee)
  (fee_amount : float) : outcome CommissionResult :=
  let structure := commission_structure self in
  let cumulative_fees_before := cumulative_fees self in
  let base_rate := dict_get (Structure.base_rate structure) 0%float in
  tiers <- sorted_by_threshold (dict_get (Structure.tiers structure) []) ;;
  let cap := Structure.cap structure in
  let current_fee_position := cumulative_fees_before in
  current_rate <- scan_rate current_fee_position tiers base_rate ;;
  let current_rate := apply_cap cap current_rate in
  st <- while_loop (S (List.length tiers)) tiers cap
          (Loop.mk fee_amount 0%float [] current_fee_position current_rate) ;;
  new_rate <- scan_rate (Loop.current_fee_position st) tiers base_rate ;;
  let new_rate := apply_cap cap new_rate in
  Return (mkResult
    (Loop.total_commission st)
    (Loop.breakdown st)
    cumulative_fees_before
    (Loop.current_fee_position st)
    (cumulative_commission self)
    (PrimFloat.add (cumulative_commission self) (Loop.total_commission st))
    new_rate).

(** Well-formed tiers and structures, as for the rational numbers. *)
Definition tier_okb (tier : Tier.t) : bool :=
  match Tier.threshold tier, Tier.rate tier with
  | Some _, Some _ => true
  | _, _ => false
  end.

Definition well_formed (structure : Structure.t) : bool :=
  forallb tier_okb (dict_get (Structure.tiers structure) []).

Definition threshold_of (tier : Tier.t) : float :=
  dict_get (Tier.threshold tier) 0%float.

Definition rate_of (tier : Tier.t) : float := dict_get (Tier.rate tier) 0%float.

Definition sorted_view (l : list Tier.t) : list Tier.t :=
  map snd (sort_by_key (combine (map threshold_of l) l)).

Definition count_above (position : float) (tiers : list Tier.t) : nat :=
  List.length
    (filter (fun tier => PrimFloat.ltb position (threshold_of tier)) tiers).




(** A run of segments from [start] to [stop], each beginning at the value
    the one before it ends at. *)
Fixpoint chain (start : float) (l : list Segment.t) (stop : float) : Prop :=
  match l with
  | [] => start = stop
  | s :: l' =>
      Segment.from_cumulative_fees s = start
      /\ chain (Segment.to_cumulative_fees s) l' stop
  end.

Definition tier (th r : float) : Tier.t := Tier.mk (Some th) (Some r).


Definition structure_boundary : Structure.t :=
  Structure.mk (Some 0.10%float) (Some [tier 100000%float 0.15%float]) None.

End Binary64.

(** * Properties *)

(** ** Comparisons *)

Lemma Qgeb_true a b : Qgeb a b = true <-> b <= a.
Proof. unfold Qgeb. apply Qle_bool_iff. Qed.

Lemma Qgeb_false a b : Qgeb a b = false <-> a < b.
Proof.
  unfold Qgeb. split; intro H.
  - apply Qnot_le_lt. intro Hle. apply Qle_bool_iff in Hle. congruence.
  - destruct (Qle_bool b a) eqn:E; [|reflexivity].
    apply Qle_bool_iff in E. lra.
Qed.

Lemma Qgtb_true a b : Qgtb a b = true <-> b < a.
Proof.
  unfold Qgtb. rewrite negb_true_iff. apply (Qgeb_false b a).
Qed.

Lemma Qgtb_false a b : Qgtb a b = false <-> a <= b.
Proof.
  unfold Qgtb. rewrite negb_false_iff. apply Qle_bool_iff.
Qed.

Lemma py_min_le_r a b : py_min a b <= b.
Proof.
  unfold py_min. destruct (Qgtb a b) eqn:E.
  - lra.
  - apply Qgtb_false in E. exact E.
Qed.

Lemma py_min_Qmin a b : py_min a b == Qmin a b.
Proof.
  unfold py_min. destruct (Qgtb a b) eqn:E.
  - apply Qgtb_true in E. symmetry. apply Q.min_r. lra.
  - apply Qgtb_false in E. symmetry. apply Q.min_l. exact E.
Qed.

Lemma apply_cap_le cap r c : cap = Some c -> apply_cap cap r <= c.
Proof. intros ->. apply py_min_le_r. Qed.

(** ** Well-formed tiers *)

Lemma tier_okb_inv tier :
  tier_okb tier = true ->
  Tier.threshold tier = Some (threshold_of tier)
  /\ Tier.rate tier = Some (rate_of tier).
Proof.
  unfold tier_okb, threshold_of, rate_of.
  destruct (Tier.threshold tier), (Tier.rate tier); simpl; intro H;
    try discriminate; split; reflexivity.
Qed.

Lemma tier_threshold_ok tier :
  tier_okb tier = true -> tier_threshold tier = Return (threshold_of tier).
Proof.
  intro H. apply tier_okb_inv in H as [H _].
  unfold tier_threshold. rewrite H. reflexivity.
Qed.

Lemma tier_rate_ok tier :
  tier_okb tier = true -> tier_rate tier = Return (rate_of tier).
Proof.
  intro H. apply tier_okb_inv in H as [_ H].
  unfold tier_rate. rewrite H. reflexivity.
Qed.

Lemma mapM_threshold_ok l :
  forallb tier_okb l = true ->
  mapM tier_threshold l = Return (map threshold_of l).
Proof.
  induction l as [|a l IH]; simpl; [reflexivity|].
  rewrite andb_true_iff. intros [Ha Hl].
  rewrite (tier_threshold_ok _ Ha). simpl. rewrite (IH Hl). reflexivity.
Qed.

(** ** The sort *)

Lemma insert_by_key_perm k tier l :
  Permutation ((k, tier) :: l) (insert_by_key k tier l).
Proof.
  induction l as [|[k' t'] l IH]; simpl.
  - apply Permutation_refl.
  - destruct (Qle_bool k k').
    + apply Permutation_refl.
    + eapply perm_trans; [apply perm_swap|]. apply perm_skip. exact IH.
Qed.

Lemma sort_by_key_perm l : Permutation l (sort_by_key l).
Proof.
  induction l as [|[k t] l IH]; simpl.
  - apply perm_nil.
  - eapply perm_trans; [|apply insert_by_key_perm]. apply perm_skip. exact IH.
Qed.

Lemma insert_by_key_sorted k tier l :
  StronglySorted key_le l -> StronglySorted key_le (insert_by_key k tier l).
Proof.
  induction 1 as [|[k' t'] l Hs IH Hall]; simpl.
  - constructor; constructor.
  - destruct (Qle_bool k k') eqn:E.
    + apply Qle_bool_iff in E.
      constructor; [constructor; assumption|].
      constructor; [exact E|].
      eapply Forall_impl; [|exact Hall].
      intros [k2 t2]. unfold key_le. simpl. intro. lra.
    + assert (Hlt : k' < k) by (apply (Qgeb_false k' k); exact E).
      constructor; [exact IH|].
      eapply Permutation_Forall; [apply insert_by_key_perm|].
      constructor; [unfold key_le; simpl; lra | exact Hall].
Qed.

Lemma sort_by_key_sorted l : StronglySorted key_le (sort_by_key l).
Proof.
  induction l as [|[k t] l IH]; simpl.
  - constructor.
  - apply insert_by_key_sorted. exact IH.
Qed.

Lemma combine_keys_snd l : map snd (combine (map threshold_of l) l) = l.
Proof. induction l; simpl; congruence. Qed.

Lemma combine_keys_fst l :
  Forall (fun p => fst p = threshold_of (snd p)) (combine (map threshold_of l) l).
Proof. induction l; simpl; constructor; auto. Qed.

Lemma sorted_view_perm l : Permutation l (sorted_view l).
Proof.
  unfold sorted_view.
  rewrite <- (combine_keys_snd l) at 1.
  apply Permutation_map. apply sort_by_key_perm.
Qed.

Lemma sorted_map_snd l :
  Forall (fun p => fst p = threshold_of (snd p)) l ->
  StronglySorted key_le l -> StronglySorted threshold_le (map snd l).
Proof.
  intros Hd Hs. induction Hs as [|p l Hs IH Hall]; simpl.
  - constructor.
  - inversion Hd as [|? ? Hp Hd']; subst.
    constructor; [apply IH; exact Hd'|].
    apply Forall_map. rewrite Forall_forall in *.
    intros q Hq. unfold threshold_le.
    rewrite <- Hp, <- (Hd' q Hq). apply (Hall q Hq).
Qed.

Lemma sorted_view_sorted l : StronglySorted threshold_le (sorted_view l).
Proof.
  unfold sorted_view. apply sorted_map_snd.
  - eapply Permutation_Forall; [apply sort_by_key_perm|].
    apply combine_keys_fst.
  - apply sort_by_key_sorted.
Qed.

Lemma sorted_by_threshold_ok l :
  forallb tier_okb l = true ->
  sorted_by_threshold l = Return (sorted_view l).
Proof.
  intro H. unfold sorted_by_threshold.
  rewrite (mapM_threshold_ok _ H). reflexivity.
Qed.

Lemma sorted_view_ok l :
  forallb tier_okb l = true -> forallb tier_okb (sorted_view l) = true.
Proof.
  rewrite !forallb_forall. intros H x Hx. apply H.
  eapply Permutation_in; [apply Permutation_sym, sorted_view_perm | exact Hx].
Qed.

Lemma sorted_view_length l : List.length (sorted_view l) = List.length l.
Proof. symmetry. apply Permutation_length, sorted_view_perm. Qed.

(** ** The rate scan *)

(** On well-formed tiers the scan returns; it keeps the rate it was given
    when every threshold is beyond the position, and otherwise returns the
    rate of the last tier, in list order, whose threshold is reached. *)
Lemma scan_rate_ok position tiers :
  forallb tier_okb tiers = true ->
  forall current_rate,
  exists r,
    scan_rate position tiers current_rate = Return r
    /\ ((r = current_rate
         /\ Forall (fun tier => position < threshold_of tier) tiers)
        \/ (exists pre tier post,
              tiers = pre ++ tier :: post
              /\ threshold_of tier <= position
              /\ Forall (fun tier' => position < threshold_of tier') post
              /\ r = rate_of tier)).
Proof.
  induction tiers as [|t ts IH]; simpl; intros Hok cur.
  - exists cur. split; [reflexivity|]. left. split; [reflexivity|constructor].
  - apply andb_true_iff in Hok as [Ht Hts].
    rewrite (tier_threshold_ok _ Ht). simpl.
    destruct (Qgeb position (threshold_of t)) eqn:E.
    + apply Qgeb_true in E.
      rewrite (tier_rate_ok _ Ht). simpl.
      destruct (IH Hts (rate_of t)) as [r [Hr [[Heq Hall]|Hex]]].
      * exists r. split; [exact Hr|]. right.
        exists [], t, ts. simpl. repeat split; assumption.
      * destruct Hex as [pre [t' [post [Hts' [Hle [Hall Hrt]]]]]].
        exists r. split; [exact Hr|]. right.
        exists (t :: pre), t', post. simpl. rewrite Hts'.
        repeat split; assumption.
    + apply Qgeb_false in E.
      destruct (IH Hts cur) as [r [Hr [[Heq Hall]|Hex]]].
      * exists r. split; [exact Hr|]. left.
        split; [exact Heq|]. constructor; assumption.
      * destruct Hex as [pre [t' [post [Hts' [Hle [Hall Hrt]]]]]].
        exists r. split; [exact Hr|]. right.
        exists (t :: pre), t', post. simpl. rewrite Hts'.
        repeat split; assumption.
Qed.

Lemma sorted_prefix_le pre tier post :
  StronglySorted threshold_le (pre ++ tier :: post) ->
  Forall (fun tier' => threshold_of tier' <= threshold_of tier) pre.
Proof.
  induction pre as [|a pre IH]; simpl; intro Hs.
  - constructor.
  - inversion Hs as [|? ? Hs' Hall]; subst.
    constructor; [|apply IH; exact Hs'].
    rewrite Forall_forall in Hall. apply (Hall tier).
    apply in_or_app. right. left. reflexivity.
Qed.

(** In a sorted list the tier the scan selects has the largest reached
    threshold. *)
Lemma selected_is_largest position pre tier post :
  StronglySorted threshold_le (pre ++ tier :: post) ->
  Forall (fun tier' => position < threshold_of tier') post ->
  forall tier',
    In tier' (pre ++ tier :: post) ->
    threshold_of tier' <= position ->
    threshold_of tier' <= threshold_of tier.
Proof.
  intros Hs Hpost t' Hin Hle.
  apply in_app_or in Hin as [Hin|[Heq|Hin]].
  - apply sorted_prefix_le in Hs. rewrite Forall_forall in Hs.
    apply Hs. exact Hin.
  - subst. lra.
  - rewrite Forall_forall in Hpost. specialize (Hpost _ Hin). lra.
Qed.

(** The rate selected at a position among the sorted tiers of a
    well-formed structure. *)
Lemma scan_sorted_view position l base :
  forallb tier_okb l = true ->
  exists r,
    scan_rate position (sorted_view l) base = Return r
    /\ ((forall tier, In tier l -> position < threshold_of tier) -> r = base)
    /\ ((exists tier, In tier l /\ threshold_of tier <= position) ->
        exists tier,
          In tier l
          /\ threshold_of tier <= position
          /\ (forall tier', In tier' l -> threshold_of tier' <= position ->
                            threshold_of tier' <= threshold_of tier)
          /\ r = rate_of tier).
Proof.
  intro Hok.
  destruct (scan_rate_ok position _ (sorted_view_ok _ Hok) base)
    as [r [Hr Hcases]].
  exists r. split; [exact Hr|].
  pose proof (sorted_view_perm l) as Hperm.
  destruct Hcases as [[Heq Hall]|[pre [t [post [Hsv [Hle [Hpost Hrt]]]]]]].
  - split; [intros _; exact Heq|].
    intros [t [Hin Hle]]. exfalso.
    rewrite Forall_forall in Hall.
    specialize (Hall t (Permutation_in _ Hperm Hin)). lra.
  - assert (Hint : In t l).
    { apply (Permutation_in _ (Permutation_sym Hperm)).
      rewrite Hsv. apply in_or_app. right. left. reflexivity. }
    split.
    + intro Hbelow. specialize (Hbelow t Hint). lra.
    + intros _. exists t. repeat split; try assumption.
      intros t' Hin' Hle'.
      apply (selected_is_largest position pre t post).
      * rewrite <- Hsv. apply sorted_view_sorted.
      * exact Hpost.
      * rewrite <- Hsv. apply (Permutation_in _ Hperm Hin').
      * exact Hle'.
Qed.

(** C1.  For a well-formed commission structure and any cumulative fees,
    [calculate_current_rate_based_on_fees] returns the clamped value of a
    rate [r]: [r] is [base_rate] (0.0 when the key is absent) when the
    cumulative fees are below every tier threshold, and otherwise the rate
    of a tier whose threshold is the largest one less than or equal to the
    cumulative fees (a threshold that is reached exactly counts as
    reached).  Clamping takes the minimum with [cap] when [cap] is set and
    changes nothing otherwise; with no tiers, [r] is [base_rate]. *)
Theorem current_rate_contract (self : Employee) :
  well_formed (commission_structure self) = true ->
  let structure := commission_structure self in
  let fees := cumulative_fees self in
  let base := dict_get (Structure.base_rate structure) 0 in
  exists r result,
    calculate_current_rate_based_on_fees self = Return result
    /\ match Structure.cap structure with
       | Some c => result == Qmin r c
       | None => result = r
       end
    /\ ((forall tier, In tier (tiers_of structure) -> fees < threshold_of tier) ->
        r = base)
    /\ ((exists tier, In tier (tiers_of structure) /\ threshold_of tier <= fees) ->
        exists tier,
          In tier (tiers_of structure)
          /\ threshold_of tier <= fees
          /\ (forall tier', In tier' (tiers_of structure) ->
                            threshold_of tier' <= fees ->
                            threshold_of tier' <= threshold_of tier)
          /\ r = rate_of tier)
    /\ (tiers_of structure = [] -> r = base).
Proof.
  intros Hwf structure fees base.
  unfold well_formed in Hwf. fold structure in Hwf.
  destruct (scan_sorted_view fees _ base Hwf) as [r [Hr [Hbelow Hreach]]].
  exists r, (apply_cap (Structure.cap structure) r).
  split.
  - unfold calculate_current_rate_based_on_fees.
    fold structure. rewrite (sorted_by_threshold_ok _ Hwf). simpl.
    fold fees. fold base. rewrite Hr. reflexivity.
  - split.
    + destruct (Structure.cap structure) as [c|]; simpl.
      * apply py_min_Qmin.
      * reflexivity.
    + split; [exact Hbelow|]. split; [exact Hreach|].
      intro Hnil. apply Hbelow. unfold tiers_of. unfold tiers_of in Hnil.
      rewrite Hnil. intros t [].
Qed.

Lemma current_rate_contract_witness :
  let self := mkEmployee 100000 0 structure_single in
  let structure := commission_structure self in
  let fees := cumulative_fees self in
  let base := dict_get (Structure.base_rate structure) 0 in
  exists r result,
    calculate_current_rate_based_on_fees self = Return result
    /\ match Structure.cap structure with
       | Some c => result == Qmin r c
       | None => result = r
       end
    /\ ((forall tier, In tier (tiers_of structure) -> fees < threshold_of tier) ->
        r = base)
    /\ ((exists tier, In tier (tiers_of structure) /\ threshold_of tier <= fees) ->
        exists tier,
          In tier (tiers_of structure)
          /\ threshold_of tier <= fees
          /\ (forall tier', In tier' (tiers_of structure) ->
                            threshold_of tier' <= fees ->
                            threshold_of tier' <= threshold_of tier)
          /\ r = rate_of tier)
    /\ (tiers_of structure = [] -> r = base).
Proof.
  apply (current_rate_contract (mkEmployee 100000 0 structure_single)).
  reflexivity.
Defined.

(** ** The next threshold *)

Lemma find_next_ok position tiers current_rate :
  forallb tier_okb tiers = true ->
  (exists tier,
      In tier tiers /\ position < threshold_of tier
      /\ find_next position tiers current_rate
         = Return (Some (threshold_of tier), rate_of tier))
  \/ (Forall (fun tier => threshold_of tier <= position) tiers
      /\ find_next position tiers current_rate = Return (None, current_rate)).
Proof.
  induction tiers as [|t ts IH]; simpl; intro Hok.
  - right. split; [constructor|reflexivity].
  - apply andb_true_iff in Hok as [Ht Hts].
    rewrite (tier_threshold_ok _ Ht). simpl.
    destruct (Qgtb (threshold_of t) position) eqn:E.
    + apply Qgtb_true in E. left. exists t.
      rewrite (tier_rate_ok _ Ht). simpl.
      repeat split; [left; reflexivity | exact E].
    + apply Qgtb_false in E.
      destruct (IH Hts) as [[t' [Hin [Hlt Hf]]]|[Hall Hf]].
      * left. exists t'. repeat split; [right; exact Hin | exact Hlt | exact Hf].
      * right. split; [constructor; assumption | exact Hf].
Qed.

(** ** One iteration *)

Lemma loop_body_ok tiers cap st :
  forallb tier_okb tiers = true ->
  (exists tier,
      In tier tiers
      /\ Loop.current_fee_position st < threshold_of tier
      /\ threshold_of tier - Loop.current_fee_position st <= Loop.remaining_fee st
      /\ loop_body tiers cap st
         = Return (reach_state cap st (threshold_of tier) (rate_of tier)))
  \/ loop_body tiers cap st = Return (stay_state cap st).
Proof.
  intro Hok. unfold loop_body.
  destruct (find_next_ok (Loop.current_fee_position st) tiers
              (Loop.current_rate st) Hok)
    as [[t [Hin [Hlt Hf]]]|[Hall Hf]]; rewrite Hf; simpl.
  - destruct (Qle_bool (threshold_of t - Loop.current_fee_position st)
                (Loop.remaining_fee st)) eqn:E.
    + left. exists t. apply Qle_bool_iff in E.
      repeat split; try assumption.
    + right. reflexivity.
  - right. reflexivity.
Qed.

(** ** The measure of the loop *)

Lemma filter_length_lt {A : Type} (f g : A -> bool) (l : list A) (a : A) :
  (forall x, f x = true -> g x = true) ->
  In a l -> g a = true -> f a = false ->
  (List.length (filter f l) < List.length (filter g l))%nat.
Proof.
  intros Himp. 
  assert (Hle : forall l', (List.length (filter f l') <= List.length (filter g l'))%nat).
  { induction l' as [|x l' IH]; simpl; [lia|].
    destruct (f x) eqn:Ef.
    - rewrite (Himp _ Ef). simpl. lia.
    - destruct (g x); simpl; lia. }
  induction l as [|x l IH]; simpl; intros Hin Hg Hf; [contradiction|].
  destruct Hin as [->|Hin].
  - rewrite Hg, Hf. simpl. specialize (Hle l). lia.
  - specialize (IH Hin Hg Hf).
    destruct (f x) eqn:Ef.
    + rewrite (Himp _ Ef). simpl. lia.
    + destruct (g x); simpl; lia.
Qed.

Lemma count_above_decreases position tiers tier :
  In tier tiers -> position < threshold_of tier ->
  (count_above (threshold_of tier) tiers < count_above position tiers)%nat.
Proof.
  intros Hin Hlt. unfold count_above.
  apply (filter_length_lt _ _ tiers tier).
  - intros x Hx. apply Qgtb_true in Hx. apply Qgtb_true. lra.
  - exact Hin.
  - apply Qgtb_true. exact Hlt.
  - apply Qgtb_false. lra.
Qed.

Lemma count_above_le_length position tiers :
  (count_above position tiers <= List.length tiers)%nat.
Proof.
  unfold count_above. induction tiers as [|t ts IH]; simpl; [lia|].
  destruct (Qgtb (threshold_of t) position); simpl; lia.
Qed.

(** ** The loop

    An invariant that both kinds of iteration keep holds when the loop
    ends, and the loop ends within the iterations its measure allows. *)
Lemma while_loop_inv (I : Loop.state -> Prop) tiers cap :
  forallb tier_okb tiers = true ->
  (forall st tier,
      I st -> 0 < Loop.remaining_fee st -> In tier tiers ->
      Loop.current_fee_position st < threshold_of tier ->
      threshold_of tier - Loop.current_fee_position st <= Loop.remaining_fee st ->
      I (reach_state cap st (threshold_of tier) (rate_of tier))) ->
  (forall st, I st -> 0 < Loop.remaining_fee st -> I (stay_state cap st)) ->
  forall fuel st,
    I st ->
    (count_above (Loop.current_fee_position st) tiers < fuel)%nat ->
    exists st',
      while_loop fuel tiers cap st = Return st'
      /\ I st' /\ Loop.remaining_fee st' <= 0.
Proof.
  intros Hok Hreach Hstay.
  induction fuel as [|fuel IH]; intros st HI Hfuel; [lia|].
  simpl. destruct (Qgtb (Loop.remaining_fee st) 0) eqn:E.
  - apply Qgtb_true in E.
    destruct (loop_body_ok tiers cap st Hok)
      as [[t [Hin [Hlt [Hsp Hb]]]]|Hb]; rewrite Hb; simpl.
    + apply IH.
      * apply Hreach; assumption.
      * simpl. pose proof (count_above_decreases _ _ _ Hin Hlt). lia.
    + exists (stay_state cap st).
      split; [|split; [apply Hstay; assumption | simpl; lra]].
      destruct fuel; reflexivity.
  - apply Qgtb_false in E. exists st. repeat split; assumption.
Qed.

(** More fuel does not change a result. *)
Lemma while_loop_more_fuel tiers cap fuel :
  forall st st' fuel',
    while_loop fuel tiers cap st = Return st' ->
    (fuel <= fuel')%nat ->
    while_loop fuel' tiers cap st = Return st'.
Proof.
  induction fuel as [|fuel IH]; intros st st' fuel' H Hle.
  - simpl in H. destruct fuel'; simpl;
      destruct (Qgtb (Loop.remaining_fee st) 0); try discriminate; exact H.
  - destruct fuel' as [|fuel']; [lia|].
    simpl in *. destruct (Qgtb (Loop.remaining_fee st) 0); [|exact H].
    destruct (loop_body tiers cap st) as [st1| |]; simpl in *;
      try discriminate.
    apply IH; [exact H | lia].
Qed.

(** ** A run of [calculate_commission_based_on_fees]

    On a well-formed structure the call returns.  Its result is read off
    the state in which the loop ends, and an invariant of the loop body
    that holds of the initial state holds of that state. *)
Lemma calculate_commission_run (I : Loop.state -> Prop) self fee_amount :
  let structure := commission_structure self in
  let tiers := sorted_view (tiers_of structure) in
  let cap := Structure.cap structure in
  let base := dict_get (Structure.base_rate structure) 0 in
  well_formed structure = true ->
  (forall st tier,
      I st -> 0 < Loop.remaining_fee st -> In tier tiers ->
      Loop.current_fee_position st < threshold_of tier ->
      threshold_of tier - Loop.current_fee_position st <= Loop.remaining_fee st ->
      I (reach_state cap st (threshold_of tier) (rate_of tier))) ->
  (forall st, I st -> 0 < Loop.remaining_fee st -> I (stay_state cap st)) ->
  (forall r0, I (initial_state fee_amount (cumulative_fees self) r0)) ->
  exists r0 st r1,
    scan_rate (cumulative_fees self) tiers base = Return r0
    /\ (forall fuel, (List.length tiers < fuel)%nat ->
          while_loop fuel tiers cap
            (initial_state fee_amount (cumulative_fees self) (apply_cap cap r0))
          = Return st)
    /\ I st
    /\ Loop.remaining_fee st <= 0
    /\ scan_rate (Loop.current_fee_position st) tiers base = Return r1
    /\ calculate_commission_based_on_fees self fee_amount
       = Return (mkResult
                   (Loop.total_commission st)
                   (Loop.breakdown st)
                   (cumulative_fees self)
                   (Loop.current_fee_position st)
                   (cumulative_commission self)
                   (cumulative_commission self + Loop.total_commission st)
                   (apply_cap cap r1)).
Proof.
  intros structure tiers cap base Hwf Hreach Hstay Hinit.
  assert (Hok : forallb tier_okb tiers = true)
    by (apply sorted_view_ok; exact Hwf).
  destruct (scan_rate_ok (cumulative_fees self) tiers Hok base) as [r0 [Hr0 _]].
  pose (st0 := initial_state fee_amount (cumulative_fees self) (apply_cap cap r0)).
  destruct (while_loop_inv I tiers cap Hok Hreach Hstay
              (S (List.length tiers)) st0 (Hinit _)) as [st [Hrun [HI Hrem]]].
  { pose proof (count_above_le_length (Loop.current_fee_position st0) tiers). lia. }
  destruct (scan_rate_ok (Loop.current_fee_position st) tiers Hok base)
    as [r1 [Hr1 _]].
  exists r0, st, r1.
  split; [exact Hr0|]. split.
  { intros fuel Hfuel.
    destruct (while_loop_inv I tiers cap Hok Hreach Hstay fuel st0 (Hinit _))
      as [st2 [Hrun2 _]].
    { pose proof (count_above_le_length (Loop.current_fee_position st0) tiers).
      lia. }
    destruct (Nat.le_ge_cases fuel (S (List.length tiers))) as [Hle|Hle].
    - rewrite (while_loop_more_fuel _ _ _ _ _ _ Hrun2 Hle) in Hrun.
      injection Hrun as <-. exact Hrun2.
    - apply (while_loop_more_fuel _ _ _ _ _ _ Hrun Hle). }
  split; [exact HI|]. split; [exact Hrem|]. split; [exact Hr1|].
  unfold calculate_commission_based_on_fees.
  fold structure. unfold well_formed in Hwf. fold structure in Hwf.
  rewrite (sorted_by_threshold_ok _ Hwf). simpl.
  fold (tiers_of structure). fold tiers. fold base. rewrite Hr0. simpl.
  change (while_loop (S (List.length tiers)) tiers cap st0 = Return st) in Hrun.
  unfold st0, initial_state in Hrun.
  match goal with
  | |- bind ?m _ = _ => change m with (while_loop (S (List.length tiers)) tiers cap
        (Loop.mk fee_amount 0 [] (cumulative_fees self) (apply_cap cap r0)))
  end.
  rewrite Hrun. simpl. rewrite Hr1. reflexivity.
Qed.

(** C5.  When [cap] is set, the call on a well-formed structure returns a
    result in which the rate of every segment and [new_rate] are at most
    [cap]; the rate the loop carries is clamped when it starts and after
    every transition to a next tier.  For the structure with base rate
    0.20, one tier (1000, 0.30) and cap 0.25, cumulative fees 2000 and a
    fee amount 1000 give one segment at the rate 0.25 and the total
    commission 250. *)
Theorem cap_enforcement :
  (forall (self : Employee) (fee_amount c : Q),
      well_formed (commission_structure self) = true ->
      Structure.cap (commission_structure self) = Some c ->
      exists r,
        calculate_commission_based_on_fees self fee_amount = Return r
        /\ Forall (fun s => Segment.rate s <= c) (breakdown r)
        /\ new_rate r <= c)
  /\ (forall (st : Loop.state) (c next_threshold next_rate r0 fee position : Q),
        Loop.current_rate (reach_state (Some c) st next_threshold next_rate) <= c
        /\ Loop.current_rate (initial_state fee position (apply_cap (Some c) r0)) <= c)
  /\ (exists r s,
        calculate_commission_based_on_fees (mkEmployee 2000 0 structure_capped) 1000
        = Return r
        /\ breakdown r = [s]
        /\ Segment.rate s == 0.25
        /\ total_commission r == 250
        /\ new_rate r == 0.25).
Proof.
  split; [|split].
  - intros self fee_amount c Hwf Hcap.
    pose (I := fun st : Loop.state =>
      Forall (fun s => Segment.rate s <= c) (Loop.breakdown st)).
    destruct (calculate_commission_run I self fee_amount Hwf)
      as [r0 [st [r1 [_ [_ [HI [_ [_ Hcall]]]]]]]].
    + intros st t Hseg Hgt Hin Hlt Hsp.
      unfold I, reach_state. simpl.
      apply Forall_app. split; [exact Hseg|].
      constructor; [simpl; apply apply_cap_le; exact Hcap | constructor].
    + intros st Hseg Hgt.
      unfold I, stay_state. simpl.
      apply Forall_app. split; [exact Hseg|].
      constructor; [simpl; apply apply_cap_le; exact Hcap | constructor].
    + intro r0. unfold I. simpl. constructor.
    + eexists. split; [exact Hcall|]. simpl.
      split; [exact HI|]. apply apply_cap_le. exact Hcap.
  - intros. simpl. split; apply py_min_le_r.
  - eexists. eexists. split; [vm_compute; reflexivity|].
    simpl. repeat split; reflexivity.
Qed.

Lemma cap_enforcement_witness :
  exists r,
    calculate_commission_based_on_fees (mkEmployee 2000 0 structure_capped) 1000
    = Return r
    /\ Forall (fun s => Segment.rate s <= 0.25) (breakdown r)
    /\ new_rate r <= 0.25.
Proof.
  apply (proj1 cap_enforcement (mkEmployee 2000 0 structure_capped) 1000 0.25);
    reflexivity.
Defined.



(** ** Calls that do not enter the loop *)

Lemma while_loop_not_entered fuel tiers cap st :
  Loop.remaining_fee st <= 0 -> while_loop fuel tiers cap st = Return st.
Proof.
  intro H. apply Qgtb_false in H.
  destruct fuel; simpl; rewrite H; reflexivity.
Qed.

Lemma calculate_commission_nonpositive self fee_amount :
  well_formed (commission_structure self) = true ->
  fee_amount <= 0 ->
  exists rate,
    calculate_current_rate_based_on_fees self = Return rate
    /\ calculate_commission_based_on_fees self fee_amount
       = Return (mkResult 0 [] (cumulative_fees self) (cumulative_fees self)
                   (cumulative_commission self)
                   (cumulative_commission self + 0) rate).
Proof.
  intros Hwf Hfee. unfold well_formed in Hwf.
  pose proof (sorted_view_ok _ Hwf) as Hok.
  destruct (scan_rate_ok (cumulative_fees self) _ Hok
              (dict_get (Structure.base_rate (commission_structure self)) 0))
    as [r0 [Hr0 _]].
  exists (apply_cap (Structure.cap (commission_structure self)) r0).
  unfold calculate_current_rate_based_on_fees,
    calculate_commission_based_on_fees.
  rewrite (sorted_by_threshold_ok _ Hwf). simpl. rewrite Hr0. simpl.
  split; [reflexivity|].
  apply Qgtb_false in Hfee. rewrite Hfee. simpl. rewrite Hr0. reflexivity.
Qed.

(** C6.  For a well-formed structure, a call with a fee amount equal to 0
    returns an empty breakdown, [total_commission == 0], cumulative fees
    and cumulative commission that are the same after as before, and a
    [new_rate] that is the rate [calculate_current_rate_based_on_fees]
    returns for the same employee. *)
Theorem zero_fee_idempotence (self : Employee) (fee_amount : Q) :
  well_formed (commission_structure self) = true ->
  fee_amount == 0 ->
  exists r,
    calculate_commission_based_on_fees self fee_amount = Return r
    /\ breakdown r = []
    /\ total_commission r == 0
    /\ cumulative_fees_before r = cumulative_fees self
    /\ cumulative_fees_after r == cumulative_fees_before r
    /\ cumulative_commission_before r = cumulative_commission self
    /\ cumulative_commission_after r == cumulative_commission_before r
    /\ calculate_current_rate_based_on_fees self = Return (new_rate r).
Proof.
  intros Hwf Hfee.
  destruct (calculate_commission_nonpositive self fee_amount Hwf)
    as [rate [Hrate Hcall]]; [lra|].
  eexists. split; [exact Hcall|]. simpl.
  repeat split; try reflexivity; try lra. exact Hrate.
Qed.

Lemma zero_fee_idempotence_witness :
  exists r,
    calculate_commission_based_on_fees (mkEmployee 100000 7 structure_single) 0
    = Return r
    /\ breakdown r = []
    /\ total_commission r == 0
    /\ cumulative_fees_before r = 100000
    /\ cumulative_fees_after r == cumulative_fees_before r
    /\ cumulative_commission_before r = 7
    /\ cumulative_commission_after r == cumulative_commission_before r
    /\ calculate_current_rate_based_on_fees (mkEmployee 100000 7 structure_single)
       = Return (new_rate r).
Proof.
  apply (zero_fee_idempotence (mkEmployee 100000 7 structure_single) 0).
  - reflexivity.
  - reflexivity.
Defined.

(** C10.  For a well-formed structure, a call with a negative fee amount
    returns normally, with the result of a call with fee amount 0: an
    empty breakdown, [total_commission == 0], cumulative fees and
    cumulative commission the same after as before, and the [new_rate]
    that [calculate_current_rate_based_on_fees] returns. *)
Theorem negative_fee_treated_as_zero (self : Employee) (fee_amount : Q) :
  well_formed (commission_structure self) = true ->
  fee_amount < 0 ->
  exists r,
    calculate_commission_based_on_fees self fee_amount = Return r
    /\ calculate_commission_based_on_fees self 0 = Return r
    /\ breakdown r = []
    /\ total_commission r == 0
    /\ cumulative_fees_before r = cumulative_fees self
    /\ cumulative_fees_after r == cumulative_fees_before r
    /\ cumulative_commission_before r = cumulative_commission self
    /\ cumulative_commission_after r == cumulative_commission_before r
    /\ calculate_current_rate_based_on_fees self = Return (new_rate r).
Proof.
  intros Hwf Hfee.
  destruct (calculate_commission_nonpositive self fee_amount Hwf)
    as [rate [Hrate Hcall]]; [lra|].
  destruct (calculate_commission_nonpositive self 0 Hwf)
    as [rate0 [Hrate0 Hcall0]]; [lra|].
  assert (rate0 = rate) by congruence. subst rate0.
  eexists. split; [exact Hcall|]. split; [exact Hcall0|]. simpl.
  repeat split; try reflexivity; try lra. exact Hrate.
Qed.

Lemma negative_fee_treated_as_zero_witness :
  exists r,
    calculate_commission_based_on_fees (mkEmployee 100000 7 structure_single) (-5)
    = Return r
    /\ calculate_commission_based_on_fees (mkEmployee 100000 7 structure_single) 0
       = Return r
    /\ breakdown r = []
    /\ total_commission r == 0
    /\ cumulative_fees_before r = 100000
    /\ cumulative_fees_after r == cumulative_fees_before r
    /\ cumulative_commission_before r = 7
    /\ cumulative_commission_after r == cumulative_commission_before r
    /\ calculate_current_rate_based_on_fees (mkEmployee 100000 7 structure_single)
       = Return (new_rate r).
Proof.
  apply (negative_fee_treated_as_zero
           (mkEmployee 100000 7 structure_single) (-5)).
  - reflexivity.
  - reflexivity.
Defined.

(** C7, as the code has it.  A negative fee amount is not rejected.  On a
    well-formed structure the call signals no error and returns a result,
    with an empty breakdown; the loop, entered with a negative remaining
    fee, runs no iteration and returns its state unchanged. *)
Theorem negative_fee_not_rejected :
  (forall (self : Employee) (fee_amount : Q),
      well_formed (commission_structure self) = true ->
      fee_amount < 0 ->
      exists r,
        calculate_commission_based_on_fees self fee_amount = Return r
        /\ breakdown r = [])
  /\ (forall fuel tiers cap (st : Loop.state),
        Loop.remaining_fee st < 0 ->
        while_loop fuel tiers cap st = Return st).
Proof.
  split.
  - intros self fee_amount Hwf Hfee.
    destruct (calculate_commission_nonpositive self fee_amount Hwf)
      as [rate [_ Hcall]]; [lra|].
    eexists. split; [exact Hcall | reflexivity].
  - intros fuel tiers cap st H. apply while_loop_not_entered. lra.
Qed.

Lemma negative_fee_not_rejected_witness :
  (exists r,
      calculate_commission_based_on_fees (mkEmployee 0 0 structure_single) (-1)
      = Return r
      /\ breakdown r = [])
  /\ while_loop 0 [] None (initial_state (-1) 0 0.10)
     = Return (initial_state (-1) 0 0.10).
Proof.
  split.
  - apply (proj1 negative_fee_not_rejected
             (mkEmployee 0 0 structure_single) (-1)); reflexivity.
  - apply (proj2 negative_fee_not_rejected). reflexivity.
Defined.

(** C7, as the specification states it, fails: the call with the fee
    amount -1 on the structure with base rate 0.10 and one tier
    (100000, 0.15) raises no error. *)
Lemma negative_fee_rejected_fails :
  ~ (exists e,
       calculate_commission_based_on_fees (mkEmployee 0 0 structure_single) (-1)
       = Raise e).
Proof.
  intros [e H]. vm_compute in H. discriminate.
Qed.

(** C2.  For the structure with base rate 0.10 and one tier
    (100000, 0.15), cumulative fees 90000 and a fee amount 20000, the
    call returns exactly two segments, the first from 90000 to 100000 at
    the rate 0.10 with commission 1000 and the second from 100000 to
    110000 at the rate 0.15 with commission 1500; the total commission is
    2500 and the new rate 0.15. *)
Theorem single_boundary_crossing :
  exists r s1 s2,
    calculate_commission_based_on_fees (mkEmployee 90000 0 structure_single) 20000
    = Return r
    /\ breakdown r = [s1; s2]
    /\ Segment.from_cumulative_fees s1 == 90000
    /\ Segment.to_cumulative_fees s1 == 100000
    /\ Segment.rate s1 == 0.10
    /\ Segment.commission s1 == 1000
    /\ Segment.from_cumulative_fees s2 == 100000
    /\ Segment.to_cumulative_fees s2 == 110000
    /\ Segment.rate s2 == 0.15
    /\ Segment.commission s2 == 1500
    /\ total_commission r == 2500
    /\ new_rate r == 0.15.
Proof.
  eexists. eexists. eexists.
  split; [vm_compute; reflexivity|].
  simpl. repeat split; reflexivity.
Qed.

(** C8, on the code.  The structure lists two tiers with the threshold
    1000, at the rates 0.20 and then 0.30.  The rate scan selects the
    last-listed one: the current rate at 1000 and the [new_rate] of a call
    are 0.30.  The loop takes the rate of the first-listed one when it
    reaches the threshold: in the call from 0 with the fee amount 2000 the
    segment from 1000 to 2000 is charged at 0.20, while the same fee space
    is charged at 0.30 by a call that starts at 1000. *)
Theorem duplicate_threshold_first_listed_in_loop :
  calculate_current_rate_based_on_fees (mkEmployee 1000 0 structure_duplicate)
  = Return 0.30
  /\ (exists r s1 s2,
        calculate_commission_based_on_fees
          (mkEmployee 0 0 structure_duplicate) 2000 = Return r
        /\ breakdown r = [s1; s2]
        /\ Segment.from_cumulative_fees s2 = 1000
        /\ Segment.to_cumulative_fees s2 == 2000
        /\ Segment.rate s2 = 0.20
        /\ new_rate r = 0.30)
  /\ (exists r s,
        calculate_commission_based_on_fees
          (mkEmployee 1000 0 structure_duplicate) 1000 = Return r
        /\ breakdown r = [s]
        /\ Segment.from_cumulative_fees s = 1000
        /\ Segment.to_cumulative_fees s == 2000
        /\ Segment.rate s = 0.30).
Proof.
  split; [reflexivity|]. split.
  - eexists. eexists. eexists.
    split; [vm_compute; reflexivity|].
    simpl. repeat split; reflexivity.
  - eexists. eexists.
    split; [vm_compute; reflexivity|].
    simpl. repeat split; reflexivity.
Qed.

(** * Further properties of the engine *)

(** ** The rate after a call *)

Lemma current_rate_at structure fees commission r :
  forallb tier_okb (tiers_of structure) = true ->
  scan_rate fees (sorted_view (tiers_of structure))
    (dict_get (Structure.base_rate structure) 0) = Return r ->
  calculate_current_rate_based_on_fees (mkEmployee fees commission structure)
  = Return (apply_cap (Structure.cap structure) r).
Proof.
  intros Hok Hr. unfold calculate_current_rate_based_on_fees. simpl.
  fold (tiers_of structure).
  rewrite (sorted_by_threshold_ok _ Hok). simpl. rewrite Hr. reflexivity.
Qed.

(** X2.  For a well-formed structure, the [new_rate] of a result is the
    rate [calculate_current_rate_based_on_fees] returns for the employee
    once the cumulative fees are the [cumulative_fees_after] of the
    result. *)
Theorem new_rate_is_rate_at_fees_after (self : Employee) (fee_amount commission : Q) :
  well_formed (commission_structure self) = true ->
  exists r,
    calculate_commission_based_on_fees self fee_amount = Return r
    /\ calculate_current_rate_based_on_fees
         (mkEmployee (cumulative_fees_after r) commission
                     (commission_structure self))
       = Return (new_rate r).
Proof.
  intros Hwf.
  destruct (calculate_commission_run (fun _ => True) self fee_amount Hwf)
    as [r0 [st [r1 [_ [_ [_ [_ [Hr1 Hcall]]]]]]]];
    try (intros; exact Logic.I).
  eexists. split; [exact Hcall|]. simpl.
  apply current_rate_at; [exact Hwf | exact Hr1].
Qed.

Lemma new_rate_is_rate_at_fees_after_witness :
  exists r,
    calculate_commission_based_on_fees (mkEmployee 90000 0 structure_single) 20000
    = Return r
    /\ calculate_current_rate_based_on_fees
         (mkEmployee (cumulative_fees_after r) 5 structure_single)
       = Return (new_rate r).
Proof.
  apply (new_rate_is_rate_at_fees_after
           (mkEmployee 90000 0 structure_single) 20000 5).
  reflexivity.
Defined.

(** ** Numbering and number of the segments *)

(** X3.  For a well-formed structure, the segments of the returned
    breakdown are numbered from 1 in the order they were appended: the
    segment at index [i] has the ['segment'] number [i + 1]. *)
Theorem segments_numbered_from_one (self : Employee) (fee_amount : Q) :
  well_formed (commission_structure self) = true ->
  exists r,
    calculate_commission_based_on_fees self fee_amount = Return r
    /\ forall i s, nth_error (breakdown r) i = Some s ->
                   Segment.segment s = S i.
Proof.
  intros Hwf.
  pose (I := fun st : Loop.state =>
    forall i s, nth_error (Loop.breakdown st) i = Some s ->
                Segment.segment s = S i).
  assert (Hsnoc : forall l s,
    (forall i s', nth_error l i = Some s' -> Segment.segment s' = S i) ->
    Segment.segment s = (List.length l + 1)%nat ->
    forall i s', nth_error (l ++ [s]) i = Some s' -> Segment.segment s' = S i).
  { intros l s Hl Hs i s' Hn.
    destruct (Nat.lt_ge_cases i (List.length l)) as [Hlt|Hge].
    - rewrite nth_error_app1 in Hn by exact Hlt. apply Hl. exact Hn.
    - rewrite nth_error_app2 in Hn by exact Hge.
      destruct (i - List.length l)%nat as [|k] eqn:Ek; simpl in Hn.
      + injection Hn as <-. rewrite Hs. lia.
      + destruct k; discriminate. }
  destruct (calculate_commission_run I self fee_amount Hwf)
    as [r0 [st [r1 [_ [_ [HI [_ [_ Hcall]]]]]]]].
  - intros st t HI Hgt Hin Hlt Hsp.
    unfold I, reach_state. simpl. apply Hsnoc; [exact HI | reflexivity].
  - intros st HI Hgt.
    unfold I, stay_state. simpl. apply Hsnoc; [exact HI | reflexivity].
  - intros r0 i s Hn. destruct i; discriminate.
  - eexists. split; [exact Hcall|]. exact HI.
Qed.

Lemma segments_numbered_from_one_witness :
  exists r,
    calculate_commission_based_on_fees (mkEmployee 90000 0 structure_single) 20000
    = Return r
    /\ forall i s, nth_error (breakdown r) i = Some s ->
                   Segment.segment s = S i.
Proof.
  apply (segments_numbered_from_one
           (mkEmployee 90000 0 structure_single) 20000).
  reflexivity.
Defined.

Lemma count_above_perm position l l' :
  Permutation l l' -> count_above position l = count_above position l'.
Proof.
  unfold count_above. induction 1 as [|x l l' Hp IH|x y l|l l' l'' H1 IH1 H2 IH2];
    simpl.
  - reflexivity.
  - destruct (Qgtb (threshold_of x) position); simpl; congruence.
  - destruct (Qgtb (threshold_of x) position),
             (Qgtb (threshold_of y) position); reflexivity.
  - congruence.
Qed.

(** X4.  For a well-formed structure, the breakdown has at most one
    segment more than there are tiers whose threshold is above the
    cumulative fees before the call, so at most one more than there are
    tiers; it has a segment when the fee amount is positive. *)
Theorem segment_count_bound (self : Employee) (fee_amount : Q) :
  well_formed (commission_structure self) = true ->
  exists r,
    calculate_commission_based_on_fees self fee_amount = Return r
    /\ (List.length (breakdown r)
        <= S (count_above (cumulative_fees self)
                          (tiers_of (commission_structure self))))%nat
    /\ (List.length (breakdown r)
        <= S (List.length (tiers_of (commission_structure self))))%nat
    /\ (0 < fee_amount -> breakdown r <> []).
Proof.
  intros Hwf.
  pose (tiers := sorted_view (tiers_of (commission_structure self))).
  pose (bound := count_above (cumulative_fees self) tiers).
  pose (I := fun st : Loop.state =>
    (0 < Loop.remaining_fee st ->
     (List.length (Loop.breakdown st)
      + count_above (Loop.current_fee_position st) tiers <= bound)%nat)
    /\ (List.length (Loop.breakdown st) <= S bound)%nat
    /\ (Loop.breakdown st = [] -> Loop.remaining_fee st = fee_amount)).
  destruct (calculate_commission_run I self fee_amount Hwf)
    as [r0 [st [r1 [_ [_ [[_ [Hlen Hnil]] [Hrem [_ Hcall]]]]]]]].
  - intros st t [Hm [Hlen Hnil]] Hgt Hin Hlt Hsp.
    specialize (Hm Hgt).
    pose proof (count_above_decreases _ _ _ Hin Hlt) as Hdec.
    fold tiers in Hdec.
    unfold I, reach_state. simpl. rewrite length_app. simpl.
    repeat split; try lia.
    intro Habs. destruct (Loop.breakdown st); discriminate.
  - intros st [Hm [Hlen Hnil]] Hgt.
    specialize (Hm Hgt).
    unfold I, stay_state. simpl. rewrite length_app. simpl.
    repeat split; try lia.
    + intro Habs. lra.
    + intro Habs. destruct (Loop.breakdown st); discriminate.
  - intro r0. unfold I. simpl. repeat split; try lia.
  - eexists. split; [exact Hcall|]. simpl.
    assert (Hb : bound = count_above (cumulative_fees self)
                           (tiers_of (commission_structure self))).
    { unfold bound, tiers. symmetry.
      apply count_above_perm, sorted_view_perm. }
    clearbody bound. subst bound. split; [exact Hlen|]. split.
    + eapply Nat.le_trans; [exact Hlen|]. apply le_n_S.
      apply count_above_le_length.
    + intros Hfee Habs. rewrite (Hnil Habs) in Hrem. lra.
Qed.

Lemma segment_count_bound_witness :
  exists r,
    calculate_commission_based_on_fees (mkEmployee 90000 0 structure_single) 20000
    = Return r
    /\ (List.length (breakdown r)
        <= S (count_above 90000 (tiers_of structure_single)))%nat
    /\ (List.length (breakdown r)
        <= S (List.length (tiers_of structure_single)))%nat
    /\ (0 < 20000 -> breakdown r <> []).
Proof.
  apply (segment_count_bound (mkEmployee 90000 0 structure_single) 20000).
  reflexivity.
Defined.

(** ** The tier the loop moves to

    The next threshold is that of the first tier, in sorted order, beyond
    the position: the tiers before it are at or below the position. *)
Lemma find_next_first position tiers current_rate :
  forallb tier_okb tiers = true ->
  (exists pre tier post,
      tiers = pre ++ tier :: post
      /\ Forall (fun tier' => threshold_of tier' <= position) pre
      /\ position < threshold_of tier
      /\ find_next position tiers current_rate
         = Return (Some (threshold_of tier), rate_of tier))
  \/ (Forall (fun tier => threshold_of tier <= position) tiers
      /\ find_next position tiers current_rate = Return (None, current_rate)).
Proof.
  induction tiers as [|t ts IH]; simpl; intro Hok.
  - right. split; [constructor|reflexivity].
  - apply andb_true_iff in Hok as [Ht Hts].
    rewrite (tier_threshold_ok _ Ht). simpl.
    destruct (Qgtb (threshold_of t) position) eqn:E.
    + apply Qgtb_true in E. left. exists [], t, ts.
      rewrite (tier_rate_ok _ Ht). simpl.
      repeat split; [constructor | exact E].
    + apply Qgtb_false in E.
      destruct (IH Hts) as [[pre [t' [post [Hsplit [Hpre [Hlt Hf]]]]]]|[Hall Hf]].
      * left. exists (t :: pre), t', post.
        split; [simpl; rewrite Hsplit; reflexivity|].
        split; [constructor; assumption|].
        split; [exact Hlt | exact Hf].
      * right. split; [constructor; assumption | exact Hf].
Qed.

Lemma loop_body_first tiers cap st :
  forallb tier_okb tiers = true ->
  (exists pre tier post,
      tiers = pre ++ tier :: post
      /\ Forall (fun tier' => threshold_of tier' <= Loop.current_fee_position st) pre
      /\ Loop.current_fee_position st < threshold_of tier
      /\ ((threshold_of tier - Loop.current_fee_position st <= Loop.remaining_fee st
           /\ loop_body tiers cap st
              = Return (reach_state cap st (threshold_of tier) (rate_of tier)))
          \/ (Loop.remaining_fee st < threshold_of tier - Loop.current_fee_position st
              /\ loop_body tiers cap st = Return (stay_state cap st))))
  \/ (Forall (fun tier => threshold_of tier <= Loop.current_fee_position st) tiers
      /\ loop_body tiers cap st = Return (stay_state cap st)).
Proof.
  intro Hok. unfold loop_body.
  destruct (find_next_first (Loop.current_fee_position st) tiers
              (Loop.current_rate st) Hok)
    as [[pre [t [post [Hsplit [Hpre [Hlt Hf]]]]]]|[Hall Hf]]; rewrite Hf; simpl.
  - left. exists pre, t, post.
    split; [exact Hsplit|]. split; [exact Hpre|]. split; [exact Hlt|].
    destruct (Qle_bool (threshold_of t - Loop.current_fee_position st)
                (Loop.remaining_fee st)) eqn:E.
    + left. apply Qle_bool_iff in E. split; [exact E | reflexivity].
    + right. split; [|reflexivity].
      apply (Qgeb_false (Loop.remaining_fee st)
               (threshold_of t - Loop.current_fee_position st)). exact E.
  - right. split; [exact Hall | reflexivity].
Qed.

Lemma sorted_suffix_ge pre tier post :
  StronglySorted threshold_le (pre ++ tier :: post) ->
  Forall (fun tier' => threshold_of tier <= threshold_of tier') post.
Proof.
  induction pre as [|a pre IH]; simpl; intro Hs.
  - inversion Hs; subst. assumption.
  - inversion Hs; subst. apply IH. assumption.
Qed.

(** The loop rule for sorted tiers.  An iteration that reaches a
    threshold reaches that of the first tier beyond the position; an
    iteration that uses up the remaining fee meets no threshold beyond the
    position on its way. *)
Lemma while_loop_inv_sorted (I : Loop.state -> Prop) tiers cap :
  forallb tier_okb tiers = true ->
  StronglySorted threshold_le tiers ->
  (forall st pre tier post,
      I st -> 0 < Loop.remaining_fee st ->
      tiers = pre ++ tier :: post ->
      Forall (fun tier' => threshold_of tier' <= Loop.current_fee_position st) pre ->
      Loop.current_fee_position st < threshold_of tier ->
      threshold_of tier - Loop.current_fee_position st <= Loop.remaining_fee st ->
      I (reach_state cap st (threshold_of tier) (rate_of tier))) ->
  (forall st,
      I st -> 0 < Loop.remaining_fee st ->
      Forall (fun tier =>
        threshold_of tier <= Loop.current_fee_position st
        \/ Loop.current_fee_position st + Loop.remaining_fee st
           < threshold_of tier) tiers ->
      I (stay_state cap st)) ->
  forall fuel st,
    I st ->
    (count_above (Loop.current_fee_position st) tiers < fuel)%nat ->
    exists st',
      while_loop fuel tiers cap st = Return st'
      /\ I st' /\ Loop.remaining_fee st' <= 0.
Proof.
  intros Hok Hsorted Hreach Hstay.
  induction fuel as [|fuel IH]; intros st HI Hfuel; [lia|].
  simpl. destruct (Qgtb (Loop.remaining_fee st) 0) eqn:E.
  - apply Qgtb_true in E.
    assert (Hdone : forall n,
      while_loop n tiers cap (stay_state cap st) = Return (stay_state cap st)).
    { intro n. apply while_loop_not_entered. simpl. lra. }
    destruct (loop_body_first tiers cap st Hok)
      as [[pre [t [post [Hsplit [Hpre [Hlt [[Hsp Hb]|[Hsp Hb]]]]]]]]|[Hall Hb]];
      rewrite Hb; simpl.
    + apply IH.
      * apply (Hreach st pre t post); assumption.
      * simpl.
        assert (Hin : In t tiers)
          by (rewrite Hsplit; apply in_or_app; right; left; reflexivity).
        pose proof (count_above_decreases _ _ _ Hin Hlt). lia.
    + exists (stay_state cap st).
      split; [apply Hdone|]. split; [|simpl; lra].
      apply Hstay; [exact HI | exact E |].
      rewrite Hsplit. apply Forall_app. split.
      * eapply Forall_impl; [|exact Hpre]. intros a Ha. left. exact Ha.
      * rewrite Hsplit in Hsorted.
        constructor; [right; lra|].
        eapply Forall_impl; [|exact (sorted_suffix_ge _ _ _ Hsorted)].
        intros a Ha. right. simpl in Ha. lra.
    + exists (stay_state cap st).
      split; [apply Hdone|]. split; [|simpl; lra].
      apply Hstay; [exact HI | exact E |].
      eapply Forall_impl; [|exact Hall]. intros a Ha. left. exact Ha.
  - apply Qgtb_false in E. exists st. repeat split; assumption.
Qed.

(** A run of the call, with the invariant established from the rate the
    call starts with. *)
Lemma calculate_commission_run_sorted (I : Loop.state -> Prop) self fee_amount :
  let structure := commission_structure self in
  let tiers := sorted_view (tiers_of structure) in
  let cap := Structure.cap structure in
  let base := dict_get (Structure.base_rate structure) 0 in
  well_formed structure = true ->
  (forall st pre tier post,
      I st -> 0 < Loop.remaining_fee st ->
      tiers = pre ++ tier :: post ->
      Forall (fun tier' => threshold_of tier' <= Loop.current_fee_position st) pre ->
      Loop.current_fee_position st < threshold_of tier ->
      threshold_of tier - Loop.current_fee_position st <= Loop.remaining_fee st ->
      I (reach_state cap st (threshold_of tier) (rate_of tier))) ->
  (forall st,
      I st -> 0 < Loop.remaining_fee st ->
      Forall (fun tier =>
        threshold_of tier <= Loop.current_fee_position st
        \/ Loop.current_fee_position st + Loop.remaining_fee st
           < threshold_of tier) tiers ->
      I (stay_state cap st)) ->
  (forall r0,
      scan_rate (cumulative_fees self) tiers base = Return r0 ->
      I (initial_state fee_amount (cumulative_fees self) (apply_cap cap r0))) ->
  exists st r1,
    I st
    /\ Loop.remaining_fee st <= 0
    /\ scan_rate (Loop.current_fee_position st) tiers base = Return r1
    /\ calculate_commission_based_on_fees self fee_amount
       = Return (mkResult
                   (Loop.total_commission st)
                   (Loop.breakdown st)
                   (cumulative_fees self)
                   (Loop.current_fee_position st)
                   (cumulative_commission self)
                   (cumulative_commission self + Loop.total_commission st)
                   (apply_cap cap r1)).
Proof.
  intros structure tiers cap base Hwf Hreach Hstay Hinit.
  destruct (calculate_commission_run (fun _ => True) self fee_amount Hwf)
    as [r0 [st [r1 [Hr0 [Hrun [_ [Hrem [Hr1 Hcall]]]]]]]]; try (intros; exact Logic.I).
  fold structure tiers cap base in Hr0, Hrun, Hr1, Hcall.
  assert (Hok : forallb tier_okb tiers = true)
    by (apply sorted_view_ok; exact Hwf).
  destruct (while_loop_inv_sorted I tiers cap Hok (sorted_view_sorted _)
              Hreach Hstay (S (List.length tiers)) _ (Hinit _ Hr0))
    as [st' [Hrun' [HI _]]].
  { pose proof (count_above_le_length (cumulative_fees self) tiers).
    simpl. lia. }
  rewrite (Hrun (S (List.length tiers))) in Hrun' by lia.
  injection Hrun' as <-.
  exists st, r1. repeat split; assumption.
Qed.

(** ** Bounds on the rates *)

Lemma apply_cap_le_self cap r : apply_cap cap r <= r.
Proof.
  destruct cap as [c|]; simpl; [|lra].
  unfold py_min. destruct (Qgtb r c) eqn:E; [|lra].
  apply Qgtb_true in E. lra.
Qed.

Lemma apply_cap_ge cap r lo :
  lo <= r -> (forall c, cap = Some c -> lo <= c) -> lo <= apply_cap cap r.
Proof.
  intros Hr Hc. destruct cap as [c|]; simpl; [|exact Hr].
  unfold py_min. destruct (Qgtb r c); [apply Hc; reflexivity | exact Hr].
Qed.

Lemma scan_rate_result position tiers current_rate r :
  forallb tier_okb tiers = true ->
  scan_rate position tiers current_rate = Return r ->
  r = current_rate \/ exists tier, In tier tiers /\ r = rate_of tier.
Proof.
  intros Hok Hr.
  destruct (scan_rate_ok position tiers Hok current_rate)
    as [r' [Hr' [[Heq _]|[pre [t [post [Hsplit [_ [_ Hrt]]]]]]]]];
    rewrite Hr in Hr'; injection Hr' as <-.
  - left. exact Heq.
  - right. exists t. split; [|exact Hrt].
    rewrite Hsplit. apply in_or_app. right. left. reflexivity.
Qed.

Lemma in_sorted_view tier l : In tier (sorted_view l) -> In tier l.
Proof.
  apply Permutation_in, Permutation_sym, sorted_view_perm.
Qed.

(** X6.  When the base rate and the rate of every tier of a well-formed
    structure lie between [lo] and [hi], and a [cap] that is set is not
    below [lo], every segment of a call is charged at a rate between [lo]
    and [hi], and the new rate lies between [lo] and [hi]. *)
Theorem rates_between_bounds (self : Employee) (fee_amount lo hi : Q) :
  let structure := commission_structure self in
  well_formed structure = true ->
  lo <= dict_get (Structure.base_rate structure) 0 <= hi ->
  (forall tier, In tier (tiers_of structure) -> lo <= rate_of tier <= hi) ->
  (forall c, Structure.cap structure = Some c -> lo <= c) ->
  exists r,
    calculate_commission_based_on_fees self fee_amount = Return r
    /\ Forall (fun s => lo <= Segment.rate s <= hi) (breakdown r)
    /\ lo <= new_rate r <= hi.
Proof.
  intros structure Hwf Hbase Htiers Hcap.
  pose (cap := Structure.cap structure).
  assert (Hclamp : forall x, lo <= x <= hi -> lo <= apply_cap cap x <= hi).
  { intros x [Hl Hh]. split.
    - apply apply_cap_ge; assumption.
    - pose proof (apply_cap_le_self cap x). lra. }
  assert (Hscan : forall p r,
    scan_rate p (sorted_view (tiers_of structure))
      (dict_get (Structure.base_rate structure) 0) = Return r ->
    lo <= r <= hi).
  { intros p r Hr.
    apply scan_rate_result in Hr as [->|[t [Hin ->]]];
      [exact Hbase | | apply sorted_view_ok; exact Hwf].
    apply Htiers, in_sorted_view, Hin. }
  pose (I := fun st : Loop.state =>
    Forall (fun s => lo <= Segment.rate s <= hi) (Loop.breakdown st)
    /\ lo <= Loop.current_rate st <= hi).
  destruct (calculate_commission_run_sorted I self fee_amount Hwf)
    as [st [r1 [[Hseg Hrate] [_ [Hr1 Hcall]]]]].
  - intros st pre t post [Hseg Hrate] Hgt Hsplit Hpre Hlt Hsp.
    fold structure. fold cap.
    unfold I, reach_state. simpl. split.
    + apply Forall_app. split; [exact Hseg|].
      constructor; [simpl; apply Hclamp; exact Hrate | constructor].
    + apply Hclamp, Htiers, in_sorted_view.
      fold structure in Hsplit. rewrite Hsplit.
      apply in_or_app. right. left. reflexivity.
  - intros st [Hseg Hrate] Hgt _.
    fold structure. fold cap.
    unfold I, stay_state. simpl. split; [|exact Hrate].
    apply Forall_app. split; [exact Hseg|].
    constructor; [simpl; apply Hclamp; exact Hrate | constructor].
  - intros r0 Hr0. fold structure in Hr0. fold structure. fold cap.
    unfold I. simpl. split; [constructor|].
    apply Hclamp, (Hscan _ _ Hr0).
  - fold structure in Hr1, Hcall. fold cap in Hcall.
    eexists. split; [exact Hcall|]. simpl.
    split; [exact Hseg|]. apply Hclamp, (Hscan _ _ Hr1).
Qed.

Lemma rates_between_bounds_witness :
  exists r,
    calculate_commission_based_on_fees (mkEmployee 90000 0 structure_single) 20000
    = Return r
    /\ Forall (fun s => 0.10 <= Segment.rate s <= 0.15) (breakdown r)
    /\ 0.10 <= new_rate r <= 0.15.
Proof.
  apply (rates_between_bounds
           (mkEmployee 90000 0 structure_single) 20000 0.10 0.15).
  - reflexivity.
  - split; discriminate.
  - intros t [<-|[]]. split; discriminate.
  - intros c H. discriminate H.
Defined.

(** ** Structures without duplicate thresholds *)

Lemma distinct_thresholds_perm l l' :
  Permutation l l' -> distinct_thresholds l -> distinct_thresholds l'.
Proof.
  induction 1 as [|x l l' Hp IH|x y l|l l' l'' H1 IH1 H2 IH2]; simpl.
  - trivial.
  - intros [Hx Hl]. split; [|apply IH; exact Hl].
    eapply Permutation_Forall; [exact Hp | exact Hx].
  - intros [Hy [Hx Hl]]. inversion Hy as [|? ? Hyx Hyl]; subst.
    split; [|split; assumption].
    constructor; [|exact Hx]. intro H. apply Hyx. symmetry. exact H.
  - intro H. apply IH2, IH1, H.
Qed.

Lemma sorted_distinct_strict l :
  StronglySorted threshold_le l -> distinct_thresholds l ->
  StronglySorted threshold_lt l.
Proof.
  induction 1 as [|a l Hs IH Hall]; simpl; intro Hd.
  - constructor.
  - destruct Hd as [Ha Hl]. constructor; [apply IH; exact Hl|].
    rewrite Forall_forall in *. intros x Hx.
    specialize (Hall x Hx). specialize (Ha x Hx).
    unfold threshold_le in Hall. unfold threshold_lt.
    destruct (Qlt_le_dec (threshold_of a) (threshold_of x)) as [Hlt|Hge];
      [exact Hlt|].
    exfalso. apply Ha. lra.
Qed.

Lemma sorted_strict_suffix pre tier post :
  StronglySorted threshold_lt (pre ++ tier :: post) ->
  Forall (fun tier' => threshold_of tier < threshold_of tier') post.
Proof.
  induction pre as [|a pre IH]; simpl; intro Hs.
  - inversion Hs; subst. assumption.
  - inversion Hs; subst. apply IH. assumption.
Qed.

Lemma scan_rate_all_beyond position tiers :
  forallb tier_okb tiers = true ->
  Forall (fun tier => position < threshold_of tier) tiers ->
  forall current_rate,
    scan_rate position tiers current_rate = Return current_rate.
Proof.
  induction tiers as [|t ts IH]; simpl; intros Hok Hall cur; [reflexivity|].
  apply andb_true_iff in Hok as [Ht Hts].
  inversion Hall as [|? ? Hlt Hall']; subst.
  rewrite (tier_threshold_ok _ Ht). simpl.
  apply Qgeb_false in Hlt. rewrite Hlt. apply IH; assumption.
Qed.

(** The scan at a position selects the last tier that is reached. *)
Lemma scan_rate_at_tier position pre tier post :
  forallb tier_okb (pre ++ tier :: post) = true ->
  threshold_of tier <= position ->
  Forall (fun tier' => position < threshold_of tier') post ->
  forall current_rate,
    scan_rate position (pre ++ tier :: post) current_rate
    = Return (rate_of tier).
Proof.
  induction pre as [|a pre IH]; simpl; intros Hok Hle Hpost cur;
    apply andb_true_iff in Hok as [Ha Hrest].
  - rewrite (tier_threshold_ok _ Ha). simpl.
    apply Qgeb_true in Hle. rewrite Hle.
    rewrite (tier_rate_ok _ Ha). simpl.
    apply scan_rate_all_beyond; assumption.
  - rewrite (tier_threshold_ok _ Ha). simpl.
    destruct (Qgeb position (threshold_of a)).
    + rewrite (tier_rate_ok _ Ha). simpl. apply IH; assumption.
    + apply IH; assumption.
Qed.

Lemma apply_cap_idempotent cap r :
  apply_cap cap (apply_cap cap r) = apply_cap cap r.
Proof.
  destruct cap as [c|]; simpl; [|reflexivity].
  unfold py_min. destruct (Qgtb r c) eqn:E.
  - assert (Hcc : Qgtb c c = false) by (apply Qgtb_false; lra).
    rewrite Hcc. reflexivity.
  - rewrite E. reflexivity.
Qed.

(** X7.  For a well-formed structure in which no two tiers have the same
    threshold, every segment of the breakdown is charged at the rate that
    [calculate_current_rate_based_on_fees] returns for an employee whose
    cumulative fees are the start of the segment. *)
Theorem segments_charged_at_current_rate (self : Employee) (fee_amount : Q) :
  let structure := commission_structure self in
  well_formed structure = true ->
  distinct_thresholds (tiers_of structure) ->
  exists r,
    calculate_commission_based_on_fees self fee_amount = Return r
    /\ Forall (fun s =>
         calculate_current_rate_based_on_fees
           (mkEmployee (Segment.from_cumulative_fees s)
                       (cumulative_commission self) structure)
         = Return (Segment.rate s)) (breakdown r).
Proof.
  intros structure Hwf Hdist.
  pose (tiers := sorted_view (tiers_of structure)).
  pose (cap := Structure.cap structure).
  pose (base := dict_get (Structure.base_rate structure) 0).
  assert (Hok : forallb tier_okb tiers = true)
    by (apply sorted_view_ok; exact Hwf).
  assert (Hstrict : StronglySorted threshold_lt tiers).
  { apply sorted_distinct_strict; [apply sorted_view_sorted|].
    eapply distinct_thresholds_perm; [apply sorted_view_perm | exact Hdist]. }
  pose (at_rate := fun (p e : Q) =>
    exists r, scan_rate p tiers base = Return r /\ e = apply_cap cap r).
  pose (I := fun st : Loop.state =>
    Forall (fun s => at_rate (Segment.from_cumulative_fees s) (Segment.rate s))
           (Loop.breakdown st)
    /\ (0 < Loop.remaining_fee st ->
        at_rate (Loop.current_fee_position st) (Loop.current_rate st))).
  assert (Heff : forall p e, at_rate p e -> at_rate p (apply_cap cap e)).
  { intros p e [r [Hr ->]]. exists r. split; [exact Hr|].
    apply apply_cap_idempotent. }
  destruct (calculate_commission_run_sorted I self fee_amount Hwf)
    as [st [r1 [[Hseg _] [_ [_ Hcall]]]]].
  - intros st pre t post [Hseg Hcur] Hgt Hsplit Hpre Hlt Hsp.
    fold structure in Hsplit. fold tiers in Hsplit.
    fold structure. fold cap.
    unfold I, reach_state. simpl. split.
    + apply Forall_app. split; [exact Hseg|].
      constructor; [simpl; apply Heff, Hcur, Hgt | constructor].
    + intros _. exists (rate_of t). split; [|reflexivity].
      rewrite Hsplit. apply scan_rate_at_tier.
      * rewrite <- Hsplit. exact Hok.
      * lra.
      * rewrite Hsplit in Hstrict. apply (sorted_strict_suffix _ _ _ Hstrict).
  - intros st [Hseg Hcur] Hgt _.
    fold structure. fold cap.
    unfold I, stay_state. simpl. split.
    + apply Forall_app. split; [exact Hseg|].
      constructor; [simpl; apply Heff, Hcur, Hgt | constructor].
    + intro Habs. lra.
  - intros r0 Hr0. unfold I. simpl. split; [constructor|].
    intros _. exists r0. split; [exact Hr0 | reflexivity].
  - eexists. split; [exact Hcall|]. simpl.
    eapply Forall_impl; [|exact Hseg].
    intros s [r [Hr ->]]. apply current_rate_at; [exact Hwf | exact Hr].
Qed.

Lemma segments_charged_at_current_rate_witness :
  exists r,
    calculate_commission_based_on_fees (mkEmployee 500 0 structure_two_tiers) 3000
    = Return r
    /\ Forall (fun s =>
         calculate_current_rate_based_on_fees
           (mkEmployee (Segment.from_cumulative_fees s) 0 structure_two_tiers)
         = Return (Segment.rate s)) (breakdown r).
Proof.
  apply (segments_charged_at_current_rate
           (mkEmployee 500 0 structure_two_tiers) 3000).
  - reflexivity.
  - simpl. split; [|split; [constructor | exact Logic.I]].
    constructor; [|constructor]. intro H. discriminate H.
Defined.

(** ** Structures without tiers *)

(** X8.  For a structure without tiers (the key absent or the list
    empty) and a positive fee amount, the call returns exactly one
    segment: it runs from the cumulative fees before the call over the
    whole fee amount, at the base rate (0.0 when absent) clamped to the
    cap; the total commission is the fee amount times that rate, which is
    also the new rate. *)
Theorem flat_structure_single_segment (self : Employee) (fee_amount : Q) :
  let structure := commission_structure self in
  let flat_rate :=
    apply_cap (Structure.cap structure)
              (dict_get (Structure.base_rate structure) 0) in
  tiers_of structure = [] ->
  0 < fee_amount ->
  exists r s,
    calculate_commission_based_on_fees self fee_amount = Return r
    /\ breakdown r = [s]
    /\ Segment.from_cumulative_fees s = cumulative_fees self
    /\ Segment.to_cumulative_fees s = cumulative_fees self + fee_amount
    /\ Segment.fee_amount s = fee_amount
    /\ Segment.rate s = flat_rate
    /\ total_commission r == fee_amount * flat_rate
    /\ cumulative_fees_after r = cumulative_fees self + fee_amount
    /\ new_rate r = flat_rate.
Proof.
  intros structure flat_rate Hnil Hfee.
  unfold calculate_commission_based_on_fees. fold structure.
  unfold tiers_of in Hnil. rewrite Hnil. simpl.
  apply Qgtb_true in Hfee. rewrite Hfee. simpl.
  rewrite !apply_cap_idempotent.
  eexists. eexists. split; [reflexivity|]. simpl.
  fold flat_rate. repeat split; try reflexivity. lra.
Qed.

Lemma flat_structure_single_segment_witness :
  let self := mkEmployee 0 0 (Structure.mk (Some 0.10) (Some []) None) in
  exists r s,
    calculate_commission_based_on_fees self 50000 = Return r
    /\ breakdown r = [s]
    /\ Segment.from_cumulative_fees s = cumulative_fees self
    /\ Segment.to_cumulative_fees s = cumulative_fees self + 50000
    /\ Segment.fee_amount s = 50000
    /\ Segment.rate s = apply_cap None (dict_get (Some 0.10) 0)
    /\ total_commission r == 50000 * apply_cap None (dict_get (Some 0.10) 0)
    /\ cumulative_fees_after r = cumulative_fees self + 50000
    /\ new_rate r = apply_cap None (dict_get (Some 0.10) 0).
Proof.
  apply (flat_structure_single_segment
           (mkEmployee 0 0 (Structure.mk (Some 0.10) (Some []) None)) 50000);
    reflexivity.
Defined.

(** ** Tiers that lack a key *)

Lemma mapM_threshold_missing l tier :
  In tier l -> Tier.threshold tier = None ->
  mapM tier_threshold l = Raise (KeyError "threshold").
Proof.
  induction l as [|a l IH]; simpl; intros Hin Hnone; [contradiction|].
  unfold tier_threshold at 1.
  destruct (Tier.threshold a) as [th|] eqn:Ea; simpl; [|reflexivity].
  destruct Hin as [->|Hin]; [congruence|].
  rewrite (IH Hin Hnone). reflexivity.
Qed.

(** X9.  When some tier of the structure lacks its ['threshold'] key, both
    [calculate_current_rate_based_on_fees] and
    [calculate_commission_based_on_fees] raise [KeyError('threshold')],
    whatever the cumulative fees and the fee amount, also when that tier
    would not be reached. *)
Theorem missing_threshold_raises (self : Employee) (fee_amount : Q) (tier : Tier.t) :
  In tier (tiers_of (commission_structure self)) ->
  Tier.threshold tier = None ->
  calculate_current_rate_based_on_fees self = Raise (KeyError "threshold")
  /\ calculate_commission_based_on_fees self fee_amount
     = Raise (KeyError "threshold").
Proof.
  intros Hin Hnone.
  unfold calculate_current_rate_based_on_fees,
    calculate_commission_based_on_fees, sorted_by_threshold.
  unfold tiers_of in Hin.
  rewrite (mapM_threshold_missing _ _ Hin Hnone). simpl.
  split; reflexivity.
Qed.

Lemma missing_threshold_raises_witness :
  let self :=
    mkEmployee 0 0
      (Structure.mk (Some 0.10)
         (Some [tier 1000 0.20; Tier.mk None (Some 0.30)]) None) in
  calculate_current_rate_based_on_fees self = Raise (KeyError "threshold")
  /\ calculate_commission_based_on_fees self 10
     = Raise (KeyError "threshold").
Proof.
  apply (missing_threshold_raises
           (mkEmployee 0 0
              (Structure.mk (Some 0.10)
                 (Some [tier 1000 0.20; Tier.mk None (Some 0.30)]) None))
           10 (Tier.mk None (Some 0.30))).
  - right. left. reflexivity.
  - reflexivity.
Defined.

Lemma mapM_threshold_present l :
  thresholds_present l = true ->
  mapM tier_threshold l = Return (map threshold_of l).
Proof.
  unfold thresholds_present.
  induction l as [|a l IH]; simpl; [reflexivity|].
  rewrite andb_true_iff. intros [Ha Hl].
  unfold tier_threshold at 1. unfold threshold_of at 1.
  destruct (Tier.threshold a); [|discriminate]. simpl.
  rewrite (IH Hl). reflexivity.
Qed.

Lemma thresholds_present_sorted_view l :
  thresholds_present l = true -> thresholds_present (sorted_view l) = true.
Proof.
  unfold thresholds_present. rewrite !forallb_forall.
  intros H x Hx. apply H, in_sorted_view, Hx.
Qed.

Lemma tier_threshold_present tier :
  match Tier.threshold tier with Some _ => true | None => false end = true ->
  tier_threshold tier = Return (threshold_of tier).
Proof.
  unfold tier_threshold, threshold_of.
  destruct (Tier.threshold tier); [reflexivity | discriminate].
Qed.

(** The scan reads the rate of every tier that is reached. *)
Lemma scan_rate_missing_rate position tiers :
  thresholds_present tiers = true ->
  forall current_rate,
    (exists tier,
        In tier tiers /\ threshold_of tier <= position
        /\ Tier.rate tier = None) ->
    scan_rate position tiers current_rate = Raise (KeyError "rate").
Proof.
  unfold thresholds_present.
  induction tiers as [|t ts IH]; simpl; intros Hok cur [x [Hin [Hle Hnone]]];
    [contradiction|].
  apply andb_true_iff in Hok as [Ht Hts].
  rewrite (tier_threshold_present _ Ht). simpl.
  destruct (Qgeb position (threshold_of t)) eqn:E.
  - unfold tier_rate. destruct (Tier.rate t) as [rt|] eqn:Er; simpl;
      [|reflexivity].
    destruct Hin as [->|Hin]; [congruence|].
    apply (IH Hts). exists x. repeat split; assumption.
  - destruct Hin as [->|Hin].
    + apply Qgeb_false in E. lra.
    + apply (IH Hts). exists x. repeat split; assumption.
Qed.

Lemma scan_rate_rates_unread position tiers :
  thresholds_present tiers = true ->
  (forall tier, In tier tiers -> Tier.rate tier = None ->
                position < threshold_of tier) ->
  forall current_rate,
    exists r, scan_rate position tiers current_rate = Return r.
Proof.
  unfold thresholds_present.
  induction tiers as [|t ts IH]; simpl; intros Hok Hun cur;
    [exists cur; reflexivity|].
  apply andb_true_iff in Hok as [Ht Hts].
  rewrite (tier_threshold_present _ Ht). simpl.
  assert (Hun' : forall tier, In tier ts -> Tier.rate tier = None ->
                              position < threshold_of tier)
    by (intros x Hx; apply Hun; right; exact Hx).
  destruct (Qgeb position (threshold_of t)) eqn:E.
  - unfold tier_rate. destruct (Tier.rate t) as [rt|] eqn:Er; simpl.
    + apply (IH Hts Hun').
    + apply Qgeb_true in E.
      specialize (Hun t (or_introl eq_refl) Er). lra.
  - apply (IH Hts Hun').
Qed.

(** X10.  When every tier has its ['threshold'] key,
    [calculate_current_rate_based_on_fees] raises [KeyError('rate')] if
    some tier without a ['rate'] key has a threshold that the cumulative
    fees reach, also when a later tier would override it; and it returns a
    rate if the cumulative fees are below the threshold of every tier
    without a ['rate'] key. *)
Theorem current_rate_missing_rate (self : Employee) :
  let structure := commission_structure self in
  thresholds_present (tiers_of structure) = true ->
  ((exists tier,
       In tier (tiers_of structure)
       /\ threshold_of tier <= cumulative_fees self
       /\ Tier.rate tier = None) ->
   calculate_current_rate_based_on_fees self = Raise (KeyError "rate"))
  /\ ((forall tier, In tier (tiers_of structure) -> Tier.rate tier = None ->
                    cumulative_fees self < threshold_of tier) ->
      exists rate, calculate_current_rate_based_on_fees self = Return rate).
Proof.
  intros structure Hok.
  unfold calculate_current_rate_based_on_fees, sorted_by_threshold.
  fold structure. fold (tiers_of structure).
  rewrite (mapM_threshold_present _ Hok). simpl.
  fold (sorted_view (tiers_of structure)).
  pose proof (thresholds_present_sorted_view _ Hok) as Hok'.
  split.
  - intros [t [Hin [Hle Hnone]]].
    rewrite (scan_rate_missing_rate _ _ Hok'); [reflexivity|].
    exists t. split; [|split; assumption].
    eapply Permutation_in; [apply sorted_view_perm | exact Hin].
  - intro Hun.
    destruct (scan_rate_rates_unread (cumulative_fees self) _ Hok'
                (fun x Hx => Hun x (in_sorted_view _ _ Hx))
                (dict_get (Structure.base_rate structure) 0)) as [r Hr].
    rewrite Hr. simpl. eexists. reflexivity.
Qed.

Lemma current_rate_missing_rate_witness :
  (calculate_current_rate_based_on_fees
     (mkEmployee 6000 0 structure_rate_missing) = Raise (KeyError "rate"))
  /\ (exists rate,
        calculate_current_rate_based_on_fees
          (mkEmployee 4000 0 structure_rate_missing) = Return rate).
Proof.
  split.
  - apply (proj1 (current_rate_missing_rate
                    (mkEmployee 6000 0 structure_rate_missing) eq_refl)).
    exists (Tier.mk (Some 5000) None).
    split; [right; left; reflexivity|]. split; [discriminate | reflexivity].
  - apply (proj2 (current_rate_missing_rate
                    (mkEmployee 4000 0 structure_rate_missing) eq_refl)).
    intros t [<-|[<-|[]]] H; [discriminate H | reflexivity].
Defined.

(** The first tier beyond the position is the one whose rate the search
    reads. *)
Lemma find_next_present position tiers current_rate :
  thresholds_present tiers = true ->
  (exists pre tier post,
      tiers = pre ++ tier :: post
      /\ Forall (fun tier' => threshold_of tier' <= position) pre
      /\ position < threshold_of tier
      /\ find_next position tiers current_rate
         = match Tier.rate tier with
           | Some r => Return (Some (threshold_of tier), r)
           | None => Raise (KeyError "rate")
           end)
  \/ find_next position tiers current_rate = Return (None, current_rate).
Proof.
  unfold thresholds_present.
  induction tiers as [|t ts IH]; simpl; intro Hok.
  - right. reflexivity.
  - apply andb_true_iff in Hok as [Ht Hts].
    rewrite (tier_threshold_present _ Ht). simpl.
    destruct (Qgtb (threshold_of t) position) eqn:E.
    + apply Qgtb_true in E. left. exists [], t, ts.
      split; [reflexivity|]. split; [constructor|]. split; [exact E|].
      unfold tier_rate. destruct (Tier.rate t); reflexivity.
    + apply Qgtb_false in E.
      destruct (IH Hts) as [[pre [t' [post [Hsplit [Hpre [Hlt Hf]]]]]]|Hf].
      * left. exists (t :: pre), t', post.
        split; [simpl; rewrite Hsplit; reflexivity|].
        split; [constructor; assumption|].
        split; [exact Hlt | exact Hf].
      * right. exact Hf.
Qed.

(** X12.  When every tier has its ['threshold'] key, the fee amount is
    positive, no tier without a ['rate'] key is reached by the cumulative
    fees, and the nearest tier beyond the cumulative fees has no ['rate']
    key, then [calculate_commission_based_on_fees] raises
    [KeyError('rate')], however small the fee amount is, while
    [calculate_current_rate_based_on_fees] returns a rate. *)
Theorem next_tier_rate_is_read (self : Employee) (fee_amount : Q) (tier : Tier.t) :
  let structure := commission_structure self in
  thresholds_present (tiers_of structure) = true ->
  0 < fee_amount ->
  (forall tier', In tier' (tiers_of structure) -> Tier.rate tier' = None ->
                 cumulative_fees self < threshold_of tier') ->
  In tier (tiers_of structure) ->
  Tier.rate tier = None ->
  (forall tier', In tier' (tiers_of structure) ->
                 threshold_of tier' <= cumulative_fees self
                 \/ threshold_of tier < threshold_of tier'
                 \/ tier' = tier) ->
  calculate_commission_based_on_fees self fee_amount = Raise (KeyError "rate")
  /\ exists rate, calculate_current_rate_based_on_fees self = Return rate.
Proof.
  intros structure Hok Hfee Hun Hin Hnone Hnear.
  split; [|apply (proj2 (current_rate_missing_rate self Hok)); exact Hun].
  unfold calculate_commission_based_on_fees, sorted_by_threshold.
  fold structure. fold (tiers_of structure).
  rewrite (mapM_threshold_present _ Hok). simpl.
  fold (sorted_view (tiers_of structure)).
  pose proof (thresholds_present_sorted_view _ Hok) as Hok'.
  set (tiers := sorted_view (tiers_of structure)) in *.
  destruct (scan_rate_rates_unread (cumulative_fees self) tiers Hok'
              (fun x Hx => Hun x (in_sorted_view _ _ Hx))
              (dict_get (Structure.base_rate structure) 0)) as [r0 Hr0].
  rewrite Hr0. simpl.
  apply Qgtb_true in Hfee. rewrite Hfee.
  unfold loop_body. simpl.
  assert (Hin' : In tier tiers)
    by (eapply Permutation_in; [apply sorted_view_perm | exact Hin]).
  assert (Hlt : cumulative_fees self < threshold_of tier)
    by (apply Hun; assumption).
  destruct (find_next_present (cumulative_fees self) tiers
              (apply_cap (Structure.cap structure) r0) Hok')
    as [[pre [t [post [Hsplit [Hpre [Hlt' Hf]]]]]]|Hf].
  - assert (Ht : t = tier).
    { assert (Hint : In t (tiers_of structure)).
      { apply in_sorted_view. fold tiers. rewrite Hsplit.
        apply in_or_app. right. left. reflexivity. }
      destruct (Hnear t Hint) as [Hle|[Hbeyond|Heq]]; [lra | | exact Heq].
      exfalso. rewrite Hsplit in Hin'.
      apply in_app_or in Hin' as [Hp|[Heq|Hp]].
      - rewrite Forall_forall in Hpre. specialize (Hpre _ Hp). lra.
      - subst. lra.
      - pose proof (sorted_view_sorted (tiers_of structure)) as Hs.
        fold tiers in Hs. rewrite Hsplit in Hs.
        apply sorted_suffix_ge in Hs. rewrite Forall_forall in Hs.
        specialize (Hs _ Hp). lra. }
    subst t. rewrite Hnone in Hf. rewrite Hf. reflexivity.
  - exfalso.
    assert (Hnone' : forall l cur,
      thresholds_present l = true ->
      find_next (cumulative_fees self) l cur = Return (None, cur) ->
      Forall (fun x => threshold_of x <= cumulative_fees self) l).
    { unfold thresholds_present.
      induction l as [|a l IHl]; simpl; intros cur Hl Hfn; [constructor|].
      apply andb_true_iff in Hl as [Ha Hl].
      rewrite (tier_threshold_present _ Ha) in Hfn. simpl in Hfn.
      destruct (Qgtb (threshold_of a) (cumulative_fees self)) eqn:E.
      - unfold tier_rate in Hfn. destruct (Tier.rate a); discriminate.
      - apply Qgtb_false in E. constructor; [exact E|].
        apply (IHl cur Hl Hfn). }
    pose proof (Hnone' _ _ Hok' Hf) as Hall.
    rewrite Forall_forall in Hall. specialize (Hall _ Hin'). lra.
Qed.

Lemma next_tier_rate_is_read_witness :
  calculate_commission_based_on_fees
    (mkEmployee 4000 0 structure_rate_missing) 1 = Raise (KeyError "rate")
  /\ exists rate,
       calculate_current_rate_based_on_fees
         (mkEmployee 4000 0 structure_rate_missing) = Return rate.
Proof.
  apply (next_tier_rate_is_read (mkEmployee 4000 0 structure_rate_missing) 1
           (Tier.mk (Some 5000) None)).
  - reflexivity.
  - reflexivity.
  - intros t [<-|[<-|[]]] H; [discriminate H | reflexivity].
  - right. left. reflexivity.
  - reflexivity.
  - intros t [<-|[<-|[]]].
    + left. discriminate.
    + right. right. reflexivity.
Defined.

(** * Properties of the callers *)

(** ** The database *)

Lemma query_get_in rows id employee :
  query_get rows id = Some employee -> In (id, employee) rows.
Proof.
  induction rows as [|[id' e] rows IH]; simpl; intro H; [discriminate|].
  destruct (Nat.eqb id' id) eqn:E.
  - apply Nat.eqb_eq in E. injection H as <-. subst. left. reflexivity.
  - right. apply IH. exact H.
Qed.

Lemma query_get_stored rows id employee employee' :
  query_get rows id = Some employee ->
  query_get (store_employee rows id employee') id = Some employee'.
Proof.
  induction rows as [|[id' e] rows IH]; simpl; intro H; [discriminate|].
  destruct (Nat.eqb id' id) eqn:E; simpl.
  - rewrite Nat.eqb_refl. reflexivity.
  - rewrite E. apply IH. exact H.
Qed.



(** What a call of [create_placement] that finds the employee does. *)
Lemma create_placement_found db starting_salary fee_percentage id now employee r :
  query_get (db_employees db) id = Some employee ->
  calculate_commission_based_on_fees employee
    (starting_salary * (fee_percentage / 100)) = Return r ->
  let fee_amount := starting_salary * (fee_percentage / 100) in
  let employee' :=
    mkEmployee (cumulative_fees employee + fee_amount)
               (cumulative_commission employee + total_commission r)
               (commission_structure employee) in
  let placement :=
    Placement.mk starting_salary (fee_percentage / 100) (total_commission r)
                 (new_rate r) (breakdown r) id in
  create_placement db starting_salary fee_percentage id now
  = Return
      (Created
         (Response.mk placement r
            (cumulative_fees_before r) (cumulative_fees employee')
            (cumulative_commission_before r) (cumulative_commission employee')
            (new_rate r * 100)),
       mkDatabase
         (store_employee (db_employees db) id employee')
         (db_placements db ++ [placement])
         (db_earnings db ++ [Earning.mk (total_commission r) id now])).
Proof.
  intros Hget Hcall. unfold create_placement. rewrite Hget, Hcall.
  reflexivity.
Qed.





(** ** The response of [create_placement] *)

(** X15.  When the employee is found and the structure is well formed,
    [create_placement] answers 201, appends one placement and one earning
    that carry the total commission of the result (the placement also its
    new rate), and the cumulative commission it stores and reports for the
    employee is the [cumulative_commission_after] of the commission
    result. *)
Theorem create_placement_records_commission
  (db : Database) (starting_salary fee_percentage : Q) (id : nat) (now : Z)
  (employee : Employee) :
  query_get (db_employees db) id = Some employee ->
  well_formed (commission_structure employee) = true ->
  exists body db' employee' placement earning,
    create_placement db starting_salary fee_percentage id now
    = Return (Created body, db')
    /\ query_get (db_employees db') id = Some employee'
    /\ commission_structure employee' = commission_structure employee
    /\ cumulative_commission employee'
       = cumulative_commission_after (Response.commission_result body)
    /\ Response.cumulative_commission_after body
       = cumulative_commission_after (Response.commission_result body)
    /\ Response.cumulative_commission_before body
       = cumulative_commission employee
    /\ db_placements db' = db_placements db ++ [placement]
    /\ Placement.commission_amount placement
       = total_commission (Response.commission_result body)
    /\ Placement.commission_rate_used placement
       = new_rate (Response.commission_result body)
    /\ Placement.commission_breakdown placement
       = breakdown (Response.commission_result body)
    /\ db_earnings db' = db_earnings db ++ [earning]
    /\ Earning.amount earning
       = total_commission (Response.commission_result body)
    /\ Earning.employee_id earning = id.
Proof.
  intros Hget Hwf.
  destruct (calculate_commission_run (fun _ => True) employee
              (starting_salary * (fee_percentage / 100)) Hwf)
    as [r0 [st [r1 [_ [_ [_ [_ [_ Hcall]]]]]]]];
    try (intros; exact Logic.I).
  eexists. eexists. eexists. eexists. eexists.
  split; [apply (create_placement_found _ _ _ _ _ _ _ Hget Hcall)|].
  simpl. split; [apply (query_get_stored _ _ _ _ Hget)|].
  repeat split; reflexivity.
Qed.

Lemma create_placement_records_commission_witness :
  exists body db' employee' placement earning,
    create_placement database_example 20000 10 1%nat 9%Z
    = Return (Created body, db')
    /\ query_get (db_employees db') 1%nat = Some employee'
    /\ commission_structure employee' = structure_two_tiers
    /\ cumulative_commission employee'
       = cumulative_commission_after (Response.commission_result body)
    /\ Response.cumulative_commission_after body
       = cumulative_commission_after (Response.commission_result body)
    /\ Response.cumulative_commission_before body = 100
    /\ db_placements db' = db_placements database_example ++ [placement]
    /\ Placement.commission_amount placement
       = total_commission (Response.commission_result body)
    /\ Placement.commission_rate_used placement
       = new_rate (Response.commission_result body)
    /\ Placement.commission_breakdown placement
       = breakdown (Response.commission_result body)
    /\ db_earnings db' = db_earnings database_example ++ [earning]
    /\ Earning.amount earning
       = total_commission (Response.commission_result body)
    /\ Earning.employee_id earning = 1%nat.
Proof.
  apply (create_placement_records_commission database_example 20000 10 1%nat
           9%Z (mkEmployee 1000 100 structure_two_tiers)).
  - reflexivity.
  - reflexivity.
Defined.



(** ** [reset_ytd_totals] *)

(** X17.  [reset_ytd_totals] sets the cumulative fees and the cumulative
    commission of every employee to 0 and keeps the employees' keys and
    commission structures, the placements and the earnings; a second reset
    changes nothing more.  The [reset_count] it reports is 0, however many
    employees were reset. *)
Theorem reset_ytd_totals_zeroes (db : Database) :
  let db' := snd (reset_ytd_totals db) in
  fst (reset_ytd_totals db) = O
  /\ map fst (db_employees db') = map fst (db_employees db)
  /\ (forall id employee,
        query_get (db_employees db) id = Some employee ->
        query_get (db_employees db') id
        = Some (mkEmployee 0 0 (commission_structure employee)))
  /\ (forall id employee,
        In (id, employee) (db_employees db') ->
        cumulative_fees employee = 0 /\ cumulative_commission employee = 0)
  /\ db_placements db' = db_placements db
  /\ db_earnings db' = db_earnings db
  /\ reset_ytd_totals db' = reset_ytd_totals db.
Proof.
  simpl. split; [reflexivity|]. split.
  { rewrite map_map. reflexivity. }
  split.
  { intros id employee. induction (db_employees db) as [|[id' e] rows IH];
      simpl; intro H; [discriminate|].
    destruct (Nat.eqb id' id); [injection H as <-; reflexivity | apply IH, H]. }
  split.
  { intros id employee Hin. apply in_map_iff in Hin as [[id' e] [Heq _]].
    injection Heq as _ <-. split; reflexivity. }
  split; [reflexivity|]. split; [reflexivity|].
  unfold reset_ytd_totals. simpl. rewrite map_map. reflexivity.
Qed.

Lemma reset_ytd_totals_zeroes_witness :
  query_get (db_employees (snd (reset_ytd_totals database_example))) 1%nat
  = Some (mkEmployee 0 0 structure_two_tiers)
  /\ (cumulative_fees (mkEmployee 0 0 structure_single) = 0
      /\ cumulative_commission (mkEmployee 0 0 structure_single) = 0).
Proof.
  split.
  - apply (proj1 (proj2 (proj2 (reset_ytd_totals_zeroes database_example)))
             1%nat (mkEmployee 1000 100 structure_two_tiers)).
    reflexivity.
  - apply (proj1 (proj2 (proj2 (proj2
             (reset_ytd_totals_zeroes database_example)))) 2%nat).
    right. left. reflexivity.
Defined.

(** ** The keys of the database *)

Lemma store_employee_keys rows id employee :
  map fst (store_employee rows id employee) = map fst rows.
Proof.
  unfold store_employee. rewrite map_map.
  apply map_ext_in. intros [id' e] _. simpl.
  destruct (Nat.eqb id' id) eqn:E; [|reflexivity].
  apply Nat.eqb_eq in E. simpl. symmetry. exact E.
Qed.

(** X21.  [create_placement] keeps the keys of the database: after a
    call that returns, the keys of the employees are still unique, and
    every placement and every earning, the new ones included, belongs to
    a stored employee. *)
Theorem create_placement_keeps_keys
  (db db' : Database) (starting_salary fee_percentage : Q) (id : nat) (now : Z)
  (answer : response Response.t) :
  keys_ok db ->
  create_placement db starting_salary fee_percentage id now
  = Return (answer, db') ->
  keys_ok db'.
Proof.
  intros [Hnd [Hp He]] Hcall. unfold create_placement in Hcall.
  destruct (query_get (db_employees db) id) as [employee|] eqn:Hget.
  - destruct (calculate_commission_based_on_fees employee _) as [r| |];
      simpl in Hcall; try discriminate.
    injection Hcall as _ <-.
    assert (Hid : In id (map fst (db_employees db))).
    { apply query_get_in in Hget. apply (in_map fst) in Hget. exact Hget. }
    unfold keys_ok. simpl. rewrite store_employee_keys.
    split; [exact Hnd|]. split.
    + apply Forall_app. split; [exact Hp|].
      constructor; [exact Hid | constructor].
    + apply Forall_app. split; [exact He|].
      constructor; [exact Hid | constructor].
  - injection Hcall as _ <-. repeat split; assumption.
Qed.

Lemma database_example_keys : keys_ok database_example.
Proof.
  split; [|split].
  - simpl. constructor; [intros [H|[]]; discriminate|].
    constructor; [intros []|constructor].
  - constructor; [left; reflexivity | constructor].
  - constructor; [left; reflexivity | constructor].
Qed.

Lemma create_placement_keeps_keys_witness :
  exists answer db',
    create_placement database_example 20000 10 1%nat 9%Z = Return (answer, db')
    /\ keys_ok db'.
Proof.
  eexists. eexists. split; [vm_compute; reflexivity|].
  eapply (create_placement_keeps_keys database_example _ 20000 10 1%nat 9%Z).
  - exact database_example_keys.
  - vm_compute. reflexivity.
Defined.

(** * Properties of the engine on binary64 *)

Module Binary64Facts.

Import Binary64.

(** ** The order of the floats *)

Lemma SFcompare_irrefl s : SFcompare s s <> Some Lt.
Proof.
  destruct s as [sg|sg| |sg m e]; simpl; try discriminate.
  - destruct sg; discriminate.
  - destruct sg; rewrite Z.compare_refl, Pos.compare_refl; discriminate.
Qed.

Lemma SFcompare_lt_trans a b c :
  SFcompare a b = Some Lt -> SFcompare b c = Some Lt -> SFcompare a c = Some Lt.
Proof.
  destruct a as [sa|sa| |sa ma ea], b as [sb|sb| |sb mb eb],
           c as [sc|sc| |sc mc ec]; simpl;
    try discriminate;
    repeat match goal with
           | s : bool |- _ => destruct s
           end; simpl; try discriminate; try reflexivity.
  all: change (Pos.compare_cont Eq ma mb) with (Pos.compare ma mb);
       change (Pos.compare_cont Eq mb mc) with (Pos.compare mb mc);
       change (Pos.compare_cont Eq ma mc) with (Pos.compare ma mc);
       destruct (Z.compare_spec ea eb), (Z.compare_spec eb ec),
         (Z.compare_spec ea ec); try discriminate; try lia; try reflexivity;
       destruct (Pos.compare_spec ma mb), (Pos.compare_spec mb mc),
         (Pos.compare_spec ma mc); simpl; try discriminate; try lia;
       try reflexivity.
Qed.

Lemma ltb_irrefl x : PrimFloat.ltb x x = false.
Proof.
  rewrite ltb_spec. unfold SFltb.
  pose proof (SFcompare_irrefl (Prim2SF x)).
  destruct (SFcompare (Prim2SF x) (Prim2SF x)) as [[| |]|]; congruence.
Qed.

Lemma ltb_trans a b c :
  PrimFloat.ltb a b = true -> PrimFloat.ltb b c = true ->
  PrimFloat.ltb a c = true.
Proof.
  rewrite !ltb_spec. unfold SFltb. intros H1 H2.
  assert (E1 : SFcompare (Prim2SF a) (Prim2SF b) = Some Lt)
    by (destruct (SFcompare (Prim2SF a) (Prim2SF b)) as [[| |]|]; congruence).
  assert (E2 : SFcompare (Prim2SF b) (Prim2SF c) = Some Lt)
    by (destruct (SFcompare (Prim2SF b) (Prim2SF c)) as [[| |]|]; congruence).
  rewrite (SFcompare_lt_trans _ _ _ E1 E2). reflexivity.
Qed.

Lemma ltb_zero_zero : PrimFloat.ltb 0%float 0%float = false.
Proof. apply ltb_irrefl. Qed.

(** ** Well-formed tiers and the sort *)

Lemma tier_threshold_ok_b tier :
  tier_okb tier = true -> tier_threshold tier = Return (threshold_of tier).
Proof.
  unfold tier_okb, tier_threshold, threshold_of.
  destruct (Tier.threshold tier), (Tier.rate tier); simpl; intro H;
    try discriminate; reflexivity.
Qed.

Lemma tier_rate_ok_b tier :
  tier_okb tier = true -> tier_rate tier = Return (rate_of tier).
Proof.
  unfold tier_okb, tier_rate, rate_of.
  destruct (Tier.threshold tier), (Tier.rate tier); simpl; intro H;
    try discriminate; reflexivity.
Qed.

Lemma mapM_threshold_ok_b l :
  forallb tier_okb l = true ->
  mapM tier_threshold l = Return (map threshold_of l).
Proof.
  induction l as [|a l IH]; simpl; [reflexivity|].
  rewrite andb_true_iff. intros [Ha Hl].
  rewrite (tier_threshold_ok_b _ Ha). simpl. rewrite (IH Hl). reflexivity.
Qed.

Lemma insert_by_key_perm_b k tier l :
  Permutation ((k, tier) :: l) (insert_by_key k tier l).
Proof.
  induction l as [|[k' t'] l IH]; simpl.
  - apply Permutation_refl.
  - destruct (PrimFloat.ltb k' k).
    + eapply perm_trans; [apply perm_swap|]. apply perm_skip. exact IH.
    + apply Permutation_refl.
Qed.

Lemma sort_by_key_perm_b l : Permutation l (sort_by_key l).
Proof.
  induction l as [|[k t] l IH]; simpl.
  - apply perm_nil.
  - eapply perm_trans; [|apply insert_by_key_perm_b]. apply perm_skip. exact IH.
Qed.

Lemma sorted_view_perm_b l : Permutation l (sorted_view l).
Proof.
  unfold sorted_view.
  assert (Hsnd : map snd (combine (map threshold_of l) l) = l)
    by (induction l; simpl; congruence).
  rewrite <- Hsnd at 1. apply Permutation_map. apply sort_by_key_perm_b.
Qed.

Lemma sorted_view_ok_b l :
  forallb tier_okb l = true -> forallb tier_okb (sorted_view l) = true.
Proof.
  rewrite !forallb_forall. intros H x Hx. apply H.
  eapply Permutation_in; [apply Permutation_sym, sorted_view_perm_b | exact Hx].
Qed.

Lemma sorted_by_threshold_ok_b l :
  forallb tier_okb l = true ->
  sorted_by_threshold l = Return (sorted_view l).
Proof.
  intro H. unfold sorted_by_threshold.
  rewrite (mapM_threshold_ok_b _ H). reflexivity.
Qed.

(** ** The scan, the search and one iteration *)

Lemma scan_rate_returns_b position tiers :
  forallb tier_okb tiers = true ->
  forall current_rate,
    exists r, scan_rate position tiers current_rate = Return r.
Proof.
  induction tiers as [|t ts IH]; simpl; intros Hok cur.
  - exists cur. reflexivity.
  - apply andb_true_iff in Hok as [Ht Hts].
    rewrite (tier_threshold_ok_b _ Ht). simpl.
    destruct (PrimFloat.leb (threshold_of t) position).
    + rewrite (tier_rate_ok_b _ Ht). simpl. apply (IH Hts).
    + apply (IH Hts).
Qed.

Lemma find_next_ok_b position tiers current_rate :
  forallb tier_okb tiers = true ->
  (exists tier,
      In tier tiers
      /\ PrimFloat.ltb position (threshold_of tier) = true
      /\ find_next position tiers current_rate
         = Return (Some (threshold_of tier), rate_of tier))
  \/ find_next position tiers current_rate = Return (None, current_rate).
Proof.
  induction tiers as [|t ts IH]; simpl; intro Hok.
  - right. reflexivity.
  - apply andb_true_iff in Hok as [Ht Hts].
    rewrite (tier_threshold_ok_b _ Ht). simpl.
    destruct (PrimFloat.ltb position (threshold_of t)) eqn:E.
    + left. exists t. rewrite (tier_rate_ok_b _ Ht). simpl.
      repeat split; [left; reflexivity | exact E].
    + destruct (IH Hts) as [[t' [Hin [Hlt Hf]]]|Hf].
      * left. exists t'. repeat split; [right; exact Hin | exact Hlt | exact Hf].
      * right. exact Hf.
Qed.

Lemma loop_body_ok_b tiers cap st :
  forallb tier_okb tiers = true ->
  (exists tier,
      In tier tiers
      /\ PrimFloat.ltb (Loop.current_fee_position st) (threshold_of tier) = true
      /\ loop_body tiers cap st
         = Return (reach_state cap st (threshold_of tier) (rate_of tier)))
  \/ loop_body tiers cap st = Return (stay_state cap st).
Proof.
  intro Hok. unfold loop_body.
  destruct (find_next_ok_b (Loop.current_fee_position st) tiers
              (Loop.current_rate st) Hok)
    as [[t [Hin [Hlt Hf]]]|Hf]; rewrite Hf; simpl.
  - destruct (PrimFloat.leb _ _).
    + left. exists t. repeat split; assumption.
    + right. reflexivity.
  - right. reflexivity.
Qed.

(** ** The loop *)

Lemma count_above_decreases_b position tiers tier :
  In tier tiers ->
  PrimFloat.ltb position (threshold_of tier) = true ->
  (count_above (threshold_of tier) tiers < count_above position tiers)%nat.
Proof.
  intros Hin Hlt. unfold count_above.
  apply (filter_length_lt _ _ tiers tier).
  - intros x Hx. exact (ltb_trans _ _ _ Hlt Hx).
  - exact Hin.
  - exact Hlt.
  - apply ltb_irrefl.
Qed.

Lemma count_above_le_length_b position tiers :
  (count_above position tiers <= List.length tiers)%nat.
Proof.
  unfold count_above. induction tiers as [|t ts IH]; simpl; [lia|].
  destruct (PrimFloat.ltb position (threshold_of t)); simpl; lia.
Qed.

Lemma while_loop_inv_b (I : Loop.state -> Prop) tiers cap :
  forallb tier_okb tiers = true ->
  (forall st tier,
      I st -> PrimFloat.ltb 0%float (Loop.remaining_fee st) = true ->
      In tier tiers ->
      PrimFloat.ltb (Loop.current_fee_position st) (threshold_of tier) = true ->
      I (reach_state cap st (threshold_of tier) (rate_of tier))) ->
  (forall st,
      I st -> PrimFloat.ltb 0%float (Loop.remaining_fee st) = true ->
      I (stay_state cap st)) ->
  forall fuel st,
    I st ->
    (count_above (Loop.current_fee_position st) tiers < fuel)%nat ->
    exists st',
      while_loop fuel tiers cap st = Return st'
      /\ I st'
      /\ PrimFloat.ltb 0%float (Loop.remaining_fee st') = false.
Proof.
  intros Hok Hreach Hstay.
  induction fuel as [|fuel IH]; intros st HI Hfuel; [lia|].
  simpl. destruct (PrimFloat.ltb 0%float (Loop.remaining_fee st)) eqn:E.
  - destruct (loop_body_ok_b tiers cap st Hok)
      as [[t [Hin [Hlt Hb]]]|Hb]; rewrite Hb; simpl.
    + apply IH.
      * apply Hreach; assumption.
      * simpl. pose proof (count_above_decreases_b _ _ _ Hin Hlt). lia.
    + exists (stay_state cap st).
      split; [|split; [apply Hstay; assumption | apply ltb_zero_zero]].
      destruct fuel; reflexivity.
  - exists st. repeat split; assumption.
Qed.

(** A run of the call on a well-formed structure: it returns, and an
    invariant of the loop body holds of the state the loop ends in. *)
Lemma calculate_commission_run_b (I : Loop.state -> Prop) self fee_amount :
  let structure := commission_structure self in
  let tiers := sorted_view (dict_get (Structure.tiers structure) []) in
  let cap := Structure.cap structure in
  well_formed structure = true ->
  (forall st tier,
      I st -> PrimFloat.ltb 0%float (Loop.remaining_fee st) = true ->
      In tier tiers ->
      PrimFloat.ltb (Loop.current_fee_position st) (threshold_of tier) = true ->
      I (reach_state cap st (threshold_of tier) (rate_of tier))) ->
  (forall st,
      I st -> PrimFloat.ltb 0%float (Loop.remaining_fee st) = true ->
      I (stay_state cap st)) ->
  (forall r0, I (Loop.mk fee_amount 0%float [] (cumulative_fees self) r0)) ->
  exists st r1,
    I st
    /\ PrimFloat.ltb 0%float (Loop.remaining_fee st) = false
    /\ calculate_commission_based_on_fees self fee_amount
       = Return (mkResult
                   (Loop.total_commission st)
                   (Loop.breakdown st)
                   (cumulative_fees self)
                   (Loop.current_fee_position st)
                   (cumulative_commission self)
                   (PrimFloat.add (cumulative_commission self)
                                  (Loop.total_commission st))
                   r1).
Proof.
  intros structure tiers cap Hwf Hreach Hstay Hinit.
  unfold well_formed in Hwf. fold structure in Hwf.
  assert (Hok : forallb tier_okb tiers = true)
    by (apply sorted_view_ok_b; exact Hwf).
  destruct (scan_rate_returns_b (cumulative_fees self) tiers Hok
              (dict_get (Structure.base_rate structure) 0%float)) as [r0 Hr0].
  destruct (while_loop_inv_b I tiers cap Hok Hreach Hstay
              (S (List.length tiers))
              (Loop.mk fee_amount 0%float [] (cumulative_fees self)
                       (apply_cap cap r0)) (Hinit _))
    as [st [Hrun [HI Hrem]]].
  { pose proof (count_above_le_length_b (cumulative_fees self) tiers).
    simpl. lia. }
  destruct (scan_rate_returns_b (Loop.current_fee_position st) tiers Hok
              (dict_get (Structure.base_rate structure) 0%float)) as [r1 Hr1].
  exists st, (apply_cap cap r1).
  split; [exact HI|]. split; [exact Hrem|].
  unfold calculate_commission_based_on_fees. fold structure.
  rewrite (sorted_by_threshold_ok_b _ Hwf).
  cbn [bind]. fold tiers. rewrite Hr0. cbn [bind]. fold cap.
  rewrite Hrun. cbn [bind]. rewrite Hr1. reflexivity.
Qed.

(** ** Sums over the breakdown *)






(** ** Chains of segments *)

Lemma chain_snoc_b start l stop s :
  chain start l stop ->
  Segment.from_cumulative_fees s = stop ->
  chain start (l ++ [s]) (Segment.to_cumulative_fees s).
Proof.
  revert start. induction l as [|a l IH]; simpl; intros start H Hs.
  - subst. split; reflexivity.
  - destruct H as [Ha H]. split; [exact Ha|]. apply IH; assumption.
Qed.

Lemma chain_consecutive_b start l stop :
  chain start l stop ->
  forall i s1 s2,
    nth_error l i = Some s1 -> nth_error l (S i) = Some s2 ->
    Segment.to_cumulative_fees s1 = Segment.from_cumulative_fees s2.
Proof.
  revert start. induction l as [|a l IH]; intros start H i s1 s2 H1 H2.
  - destruct i; discriminate.
  - destruct H as [_ H]. destruct i as [|i].
    + simpl in H1. injection H1 as <-.
      destruct l as [|b l]; [discriminate|].
      simpl in H2. injection H2 as <-.
      destruct H as [Hb _]. symmetry. exact Hb.
    + apply (IH _ H i); assumption.
Qed.

Lemma chain_first_b start l stop d :
  chain start l stop -> l <> [] ->
  Segment.from_cumulative_fees (hd d l) = start.
Proof.
  destruct l as [|a l]; simpl; intros H Hne; [contradiction|].
  apply H.
Qed.

Lemma chain_last_b start l stop d :
  chain start l stop -> l <> [] ->
  Segment.to_cumulative_fees (last l d) = stop.
Proof.
  revert start. induction l as [|a l IH]; intros start H Hne; [contradiction|].
  destruct H as [_ H]. destruct l as [|b l].
  - simpl in *. exact H.
  - change (last (a :: b :: l) d) with (last (b :: l) d).
    apply (IH _ H). discriminate.
Qed.

(** C4, as the code has it.  For a well-formed structure and any fee
    amount, the breakdown returned is contiguous and ordered: each segment
    ends at the value the next one begins at, the first begins at the
    cumulative fees before the call and the last ends at
    [cumulative_fees_after].  A segment that reaches a threshold ends
    above where it begins and its fee amount is the difference of its
    bounds; the segment that uses up the remaining fee ends at its
    beginning plus its fee amount. *)
Theorem breakdown_contiguous (self : Employee) (fee_amount : float) :
  well_formed (commission_structure self) = true ->
  exists r,
    calculate_commission_based_on_fees self fee_amount = Return r
    /\ Forall (fun s =>
         (Segment.fee_amount s
          = PrimFloat.sub (Segment.to_cumulative_fees s)
                          (Segment.from_cumulative_fees s)
          /\ PrimFloat.ltb (Segment.from_cumulative_fees s)
                           (Segment.to_cumulative_fees s) = true)
         \/ Segment.to_cumulative_fees s
            = PrimFloat.add (Segment.from_cumulative_fees s)
                            (Segment.fee_amount s))
         (breakdown r)
    /\ (forall i s1 s2,
          nth_error (breakdown r) i = Some s1 ->
          nth_error (breakdown r) (S i) = Some s2 ->
          Segment.to_cumulative_fees s1 = Segment.from_cumulative_fees s2)
    /\ (forall d, breakdown r <> [] ->
          Segment.from_cumulative_fees (hd d (breakdown r)) = cumulative_fees self)
    /\ (forall d, breakdown r <> [] ->
          Segment.to_cumulative_fees (last (breakdown r) d)
          = cumulative_fees_after r)
    /\ cumulative_fees_before r = cumulative_fees self.
Proof.
  intros Hwf.
  pose (kind := fun s : Segment.t =>
    (Segment.fee_amount s
     = PrimFloat.sub (Segment.to_cumulative_fees s)
                     (Segment.from_cumulative_fees s)
     /\ PrimFloat.ltb (Segment.from_cumulative_fees s)
                      (Segment.to_cumulative_fees s) = true)
    \/ Segment.to_cumulative_fees s
       = PrimFloat.add (Segment.from_cumulative_fees s)
                       (Segment.fee_amount s)).
  pose (I := fun st : Loop.state =>
    Forall kind (Loop.breakdown st)
    /\ chain (cumulative_fees self) (Loop.breakdown st)
             (Loop.current_fee_position st)).
  destruct (calculate_commission_run_b I self fee_amount Hwf)
    as [st [r1 [[Hkind Hch] [_ Hcall]]]].
  - intros st t [Hkind Hch] Hgt Hin Hlt.
    unfold I, reach_state. simpl. split.
    + apply Forall_app. split; [exact Hkind|].
      constructor; [|constructor]. left. simpl. split; [reflexivity | exact Hlt].
    + apply (chain_snoc_b _ _ _ (Segment.mk _ _ _ _ _ _ _) Hch). reflexivity.
  - intros st [Hkind Hch] Hgt.
    unfold I, stay_state. simpl. split.
    + apply Forall_app. split; [exact Hkind|].
      constructor; [|constructor]. right. reflexivity.
    + apply (chain_snoc_b _ _ _ (Segment.mk _ _ _ _ _ _ _) Hch). reflexivity.
  - intro r0. unfold I. simpl. split; [constructor | reflexivity].
  - eexists. split; [exact Hcall|]. simpl.
    split; [exact Hkind|].
    split; [exact (chain_consecutive_b _ _ _ Hch)|].
    split; [intros d Hne; exact (chain_first_b _ _ _ d Hch Hne)|].
    split; [intros d Hne; exact (chain_last_b _ _ _ d Hch Hne)|].
    reflexivity.
Qed.

Lemma breakdown_contiguous_witness :
  exists r,
    calculate_commission_based_on_fees
      (mkEmployee 83170.16%float 0%float structure_boundary) 16829.84%float
    = Return r
    /\ Forall (fun s =>
         (Segment.fee_amount s
          = PrimFloat.sub (Segment.to_cumulative_fees s)
                          (Segment.from_cumulative_fees s)
          /\ PrimFloat.ltb (Segment.from_cumulative_fees s)
                           (Segment.to_cumulative_fees s) = true)
         \/ Segment.to_cumulative_fees s
            = PrimFloat.add (Segment.from_cumulative_fees s)
                            (Segment.fee_amount s))
         (breakdown r)
    /\ (forall i s1 s2,
          nth_error (breakdown r) i = Some s1 ->
          nth_error (breakdown r) (S i) = Some s2 ->
          Segment.to_cumulative_fees s1 = Segment.from_cumulative_fees s2)
    /\ (forall d, breakdown r <> [] ->
          Segment.from_cumulative_fees (hd d (breakdown r))
          = 83170.16%float)
    /\ (forall d, breakdown r <> [] ->
          Segment.to_cumulative_fees (last (breakdown r) d)
          = cumulative_fees_after r)
    /\ cumulative_fees_before r = 83170.16%float.
Proof.
  apply (breakdown_contiguous
           (mkEmployee 83170.16%float 0%float structure_boundary)
           16829.84%float).
  reflexivity.
Defined.

(** C4, as the specification states it, fails on binary64: with the tier
    (100000, 0.15), cumulative fees 83170.16 and the fee amount 16829.84,
    the first segment takes 16829.839999999997 to reach 100000 and leaves
    3.637978807091713e-12; the second segment runs from 100000 to 100000
    with that fee amount, so its bounds differ by 0 and not by its fee
    amount. *)
Lemma segment_bounds_do_not_differ_by_fee :
  exists r s1 s2,
    calculate_commission_based_on_fees
      (mkEmployee 83170.16%float 0%float structure_boundary) 16829.84%float
    = Return r
    /\ breakdown r = [s1; s2]
    /\ PrimFloat.eqb
         (PrimFloat.sub (Segment.to_cumulative_fees s2)
                        (Segment.from_cumulative_fees s2))
         (Segment.fee_amount s2) = false
    /\ PrimFloat.ltb 0%float (Segment.fee_amount s2) = true
    /\ PrimFloat.eqb (Segment.from_cumulative_fees s2)
                     (Segment.to_cumulative_fees s2) = true.
Proof.
  eexists. eexists. eexists. split; [vm_compute; reflexivity|].
  split; [reflexivity|]. repeat split; vm_compute; reflexivity.
Qed.

End Binary64Facts.
